(** * sesdev: role parser, settings derivation and cluster status

    A shallow embedding of the three pieces of logic of [sesdev.py]:
    [_parse_roles], [_gen_settings_dict] (with the [ses5] command that
    post-processes its result) and the [_status] fold of the [list]
    command.

    Python strings are sequences of Unicode code points; a code point is
    an [N].  Python lists are mutable objects: the node lists built by
    [_parse_roles] live in a store and [_roles] holds references to them,
    because the parser keeps appending to a node list that it has already
    put into [_roles]. *)

From Stdlib Require Import ZArith NArith String Ascii List Lia.
From stdpp Require Import base option list gmap strings.

Local Open Scope N_scope.

(** ** Python strings *)

Abbreviation pystr := (list N).

(** A string literal of the source. *)
Definition str (s : string) : pystr :=
  map N_of_ascii (list_ascii_of_string s).

(** The empty string. *)
Definition empty_str : pystr := [].

(** [str.isspace] on one code point (the table of CPython's
    [_PyUnicode_IsWhitespace]). *)
Definition isspace (c : N) : bool :=
  ((9 <=? c) && (c <=? 13)) || ((28 <=? c) && (c <=? 32))
  || (c =? 133) || (c =? 160) || (c =? 5760)
  || ((8192 <=? c) && (c <=? 8202))
  || (c =? 8232) || (c =? 8233) || (c =? 8239) || (c =? 8287)
  || (c =? 12288).

Fixpoint lstrip (s : pystr) : pystr :=
  match s with
  | [] => []
  | c :: s' => if isspace c then lstrip s' else s
  end.

Definition rstrip (s : pystr) : pystr := reverse (lstrip (reverse s)).

(** [s.strip()] *)
Definition strip (s : pystr) : pystr := rstrip (lstrip s).

(** [s.startswith(p)] *)
Fixpoint startswith (s p : pystr) {struct p} : bool :=
  match p, s with
  | [], _ => true
  | _ :: _, [] => false
  | c :: p', d :: s' => (c =? d) && startswith s' p'
  end.

(** [s.endswith(p)] *)
Definition endswith (s p : pystr) : bool :=
  startswith (reverse s) (reverse p).

(** [s[:-1]] *)
Definition drop_last (s : pystr) : pystr := take (length s - 1)%nat s.

(** [s[1:]] *)
Definition drop_first (s : pystr) : pystr := drop 1 s.

(** [s.split(c)] for a separator of one character: never empty. *)
Fixpoint split (s : pystr) (c : N) : list pystr :=
  match s with
  | [] => [[]]
  | x :: s' =>
      if x =? c then [] :: split s' c
      else match split s' c with
           | [] => [[x]]
           | f :: fs => (x :: f) :: fs
           end
  end.

(** [sep.join(l)] *)
Fixpoint join (sep : pystr) (l : list pystr) : pystr :=
  match l with
  | [] => []
  | [x] => x
  | x :: l' => x ++ sep ++ join sep l'
  end.

Definition COMMA : N := 44.

(** [a == b] on strings *)
Fixpoint streq (a b : pystr) : bool :=
  match a, b with
  | [], [] => true
  | x :: a', y :: b' => (x =? y) && streq a' b'
  | _, _ => false
  end.

Local Close Scope N_scope.

(** ** Exceptions *)

Inductive exn := AttributeError | IndexError | KeyError | TypeError.

Inductive result (A : Type) : Type :=
| Ok (a : A)
| Raise (e : exn).
Arguments Ok {A} a.
Arguments Raise {A} e.

Global Instance result_ret : MRet result := fun _ a => Ok a.
Global Instance result_bind : MBind result := fun _ _ k r =>
  match r with
  | Ok a => k a
  | Raise e => Raise e
  end.

(** A [for] loop whose body may raise. *)
Fixpoint for_each {S A} (body : S -> A -> result S) (st : S) (l : list A)
  : result S :=
  match l with
  | [] => Ok st
  | a :: l' => st' ← body st a; for_each body st' l'
  end.

(** ** The role parser *)

(** The store of node lists: a reference is the index at which the list
    was allocated. *)
Abbreviation store := (list (list pystr)).

Record parser_state := PState {
  heap : store;
  _roles : list nat;        (* references, in append order *)
  _node : option nat        (* [None], or a reference *)
}.

(** [_node = []] *)
Definition new_node (st : parser_state) : parser_state :=
  PState (heap st ++ [[]]) (_roles st) (Some (length (heap st))).

(** [l.append(x)] on the list object [id] *)
Definition list_append (id : nat) (x : pystr) (h : store) : store :=
  alter (fun l => l ++ [x]) id h.

(** [_node.append(x)]: raises when [_node] is [None]; gives back the
    reference that was followed. *)
Definition node_append (x : pystr) (st : parser_state)
  : result (nat * parser_state) :=
  match _node st with
  | None => Raise AttributeError
  | Some id => Ok (id, PState (list_append id x (heap st)) (_roles st) (_node st))
  end.

(** [_roles.append(_node)] where [_node] is the reference [id] *)
Definition roles_append (id : nat) (st : parser_state) : parser_state :=
  PState (heap st) (_roles st ++ [id]) (_node st).

(** The body of the loop of [_parse_roles]. *)
Definition parse_step (st : parser_state) (r : pystr) : result parser_state :=
  let r := strip r in
  if startswith r (str "[") then
    let st := new_node st in
    if endswith r (str "]") then
      let r := drop_last r in
      '(id, st) ← node_append (drop_first r) st;
      Ok (roles_append id st)
    else
      '(_, st) ← node_append (drop_first r) st;
      Ok st
  else if endswith r (str "]") then
    '(id, st) ← node_append (drop_last r) st;
    Ok (roles_append id st)
  else
    '(_, st) ← node_append r st;
    Ok st.

Definition parse_init : parser_state := PState [] [] None.

(** The loop over the fragments. *)
Definition parse_loop (st : parser_state) (frags : list pystr)
  : result parser_state :=
  for_each parse_step st frags.

(** [_parse_roles]: the list object it returns, as the store of node
    lists and the references held by the outer list. *)
Definition _parse_roles (roles : pystr) : result (store * list nat) :=
  let roles := map strip (split roles COMMA) in
  st ← parse_loop parse_init roles;
  Ok (heap st, _roles st).

(** The value of a list of node references: what printing it shows. *)
Definition roles_value (h : store) (refs : list nat) : list (list pystr) :=
  map (fun id => default [] (h !! id)) refs.

(** The role list a call of the parser returns, by value. *)
Definition parse (roles : pystr) : result (list (list pystr)) :=
  '(h, refs) ← _parse_roles roles;
  Ok (roles_value h refs).

(** Modelled from the spec: the canonical renderer of the testable
    properties (the source has no renderer).  A node is its tokens joined
    by a comma and a space, between brackets; the nodes are joined by a
    comma, as in the help text of [--roles]:
    [[admin, client, prometheus],[storage, mon, mgr]]. *)
Definition render_node (n : list pystr) : pystr :=
  str "[" ++ join (str ", ") n ++ str "]".

Definition render (rl : list (list pystr)) : pystr :=
  join (str ",") (map render_node rl).

(** ** Settings derivation *)

(** Python truth value testing. *)
Class Truthy (A : Type) := truthy : A -> bool.

Global Instance truthy_int : Truthy Z := fun n => negb (n =? 0)%Z.
Global Instance truthy_bool : Truthy bool := fun b => b.
(** strings, tuples and lists are true when they are not empty *)
Global Instance truthy_seq {A} : Truthy (list A) := fun l =>
  match l with
  | [] => false
  | _ :: _ => true
  end.
(** [None] is false *)
Global Instance truthy_option {A} `{Truthy A} : Truthy (option A) := fun o =>
  match o with
  | None => false
  | Some a => truthy a
  end.

(** The values [settings_dict] holds. *)
Inductive value :=
| VStr (s : pystr)
| VInt (n : Z)
| VBool (b : bool)
| VStrList (l : list pystr)   (* a list of strings that nothing else holds *)
| VRoles (refs : list nat).   (* the list of node lists, by reference *)

(** The keyword arguments of the [create] commands, as click passes them. *)
Record kwargs := Kwargs {
  roles : option pystr;
  os : option pystr;
  num_disks : option Z;
  single_node : bool;
  libvirt_host : option pystr;
  libvirt_user : option pystr;
  libvirt_storage_pool : option pystr;
  deepsea_cli : option bool;
  stop_before_deepsea_stage : option Z;
  deepsea_repo : option pystr;
  deepsea_branch : option pystr;
  repo : option (list pystr);
  cpus : option Z;
  ram : option Z;
  disk_size : option Z;
  vagrant_box : option pystr
}.

(** [if x: d[k] = x] *)
Definition set_if_truthy {A} `{Truthy A} (k : string) (inj : A -> value)
    (x : option A) (d : gmap string value) : gmap string value :=
  match x with
  | Some a => if truthy a then <[k := inj a]> d else d
  | None => d
  end.

(** [if x is not None: d[k] = x] *)
Definition set_if_not_None {A} (k : string) (inj : A -> value)
    (x : option A) (d : gmap string value) : gmap string value :=
  match x with
  | Some a => <[k := inj a]> d
  | None => d
  end.

(** The node of a single-node cluster. *)
Definition single_node_roles : list pystr :=
  [str "admin"; str "storage"; str "mon"; str "mgr"; str "prometheus";
   str "grafana"; str "mds"; str "igw"; str "rgw"; str "ganesha"].

(** [_gen_settings_dict]: the dictionary, and the store its role list
    points into. *)
Definition _gen_settings_dict (version : option pystr) (kw : kwargs)
  : result (store * gmap string value) :=
  '(h, d) ←
    (if negb (single_node kw) && truthy (roles kw) then
       (* [roles] is true, so it is a string *)
       '(h, refs) ← _parse_roles (default [] (roles kw));
       Ok (h, <["roles" := VRoles refs]> (∅ : gmap string value))
     else if single_node kw then
       Ok ([single_node_roles], <["roles" := VRoles [0%nat]]> ∅)
     else
       Ok ([], ∅));
  let d := set_if_truthy "os" VStr (os kw) d in
  let d :=
    if truthy (num_disks kw) then
      (* [num_disks] is true, so it is an integer *)
      let n := default 0%Z (num_disks kw) in
      let n := if single_node kw && (n <? 3)%Z then 3%Z else n in
      <["num_disks" := VInt n]> d
    else if single_node kw then
      <["num_disks" := VInt 3]> d
    else d in
  let d := set_if_truthy "cpus" VInt (cpus kw) d in
  let d := set_if_truthy "ram" VInt (ram kw) d in
  let d := set_if_truthy "disk_size" VInt (disk_size kw) d in
  let d := set_if_truthy "libvirt_host" VStr (libvirt_host kw) d in
  let d := set_if_truthy "libvirt_user" VStr (libvirt_user kw) d in
  let d := set_if_truthy "libvirt_storage_pool" VStr (libvirt_storage_pool kw) d in
  let d := set_if_not_None "use_deepsea_cli" VBool (deepsea_cli kw) d in
  let d := set_if_not_None "stop_before_stage" VInt (stop_before_deepsea_stage kw) d in
  let d := set_if_truthy "deepsea_git_repo" VStr (deepsea_repo kw) d in
  let d := set_if_truthy "deepsea_git_branch" VStr (deepsea_branch kw) d in
  let d := set_if_not_None "version" VStr version d in
  let d := set_if_truthy "repos" VStrList (repo kw) d in
  let d := set_if_truthy "vagrant_box" VStr (vagrant_box kw) d in
  Ok (h, d).

(** The [create] commands, up to their call of [_create_command]: [Ok]
    is the [settings_dict] that call receives (everything after it is the
    external engine), [Raise] an exception raised before the call. *)
Definition ses5 (kw : kwargs) : result (store * gmap string value) :=
  '(h, d) ← _gen_settings_dict (Some (str "ses5")) kw;
  match d !! "roles" with
  | Some (VRoles refs) =>
      (* [settings_dict['roles'][0].append("openattic")] *)
      match refs with
      | [] => Raise IndexError
      | id :: _ => Ok (list_append id (str "openattic") h, d)
      end
  | Some _ => Raise TypeError  (* not reached: the entry is a list of lists *)
  | None => Ok (h, d)
  end.

Definition ses6 (kw : kwargs) : result (store * gmap string value) :=
  _gen_settings_dict (Some (str "ses6")) kw.

(** ** Cluster status *)

(** A dictionary whose iteration order matters: the items in insertion
    order, the keys distinct. *)
Fixpoint getitem {V} (d : list (pystr * V)) (k : pystr) : result V :=
  match d with
  | [] => Raise KeyError
  | (k', v) :: d' => if streq k' k then Ok v else getitem d' k
  end.

(** The body of the loop of [_status]: [n_status] is [n.status]. *)
Definition status_step (s n_status : pystr) : pystr :=
  if streq n_status (str "running") && streq s (str "not deployed") then
    str "partially deployed"
  else if streq n_status (str "stopped") && streq s (str "running") then
    str "partially running"
  else if streq n_status (str "suspended") && streq s (str "running") then
    str "partially running"
  else if streq n_status (str "running") && streq s (str "stopped") then
    str "partially running"
  else if streq n_status (str "running") && streq s (str "suspended") then
    str "partially running"
  else s.

(** [_status]: [nodes] maps a node name to the [status] of its node. *)
Definition _status (nodes : list (pystr * pystr)) : result pystr :=
  s ← getitem nodes (str "admin");
  Ok (fold_left status_step (map snd nodes) s).

(** ** Auxiliary definitions *)

(** No white space at either end. *)
Definition trimmed (s : pystr) : Prop :=
  (forall c, head s = Some c -> isspace c = false) /\
  (forall c, last s = Some c -> isspace c = false).

(** The fragment opens a group / closes a group, as the loop tests it. *)
Definition opens (r : pystr) : bool := startswith (strip r) (str "[").
Definition closes (r : pystr) : bool := endswith (strip r) (str "]").

(** Every reference the parser holds points into the store. *)
Definition wf_state (st : parser_state) : Prop :=
  Forall (fun id => id < length (heap st)) (_roles st) /\
  (forall id, _node st = Some id -> id < length (heap st)).

(** [st] has the store of [st0] with more lists after it, the same
    [_roles], and a current node among the later lists: what holds from
    the opening of a group on, as long as no fragment closes one. *)
Definition extends (st0 st : parser_state) : Prop :=
  exists ext id, heap st = heap st0 ++ ext /\ _roles st = _roles st0 /\
    _node st = Some id /\ length (heap st0) <= id.

(** The stages of [_gen_settings_dict], named: the roles entry, which
    may call the parser, then the disk count and the other entries. *)
Definition roles_entry (kw : kwargs) : result (store * gmap string value) :=
  if negb (single_node kw) && truthy (roles kw) then
    '(h, refs) ← _parse_roles (default [] (roles kw));
    Ok (h, <["roles" := VRoles refs]> (∅ : gmap string value))
  else if single_node kw then
    Ok ([single_node_roles], <["roles" := VRoles [0%nat]]> ∅)
  else
    Ok ([], ∅).

Definition num_disks_entry (kw : kwargs) (d : gmap string value)
  : gmap string value :=
  if truthy (num_disks kw) then
    let n := default 0%Z (num_disks kw) in
    let n := if single_node kw && (n <? 3)%Z then 3%Z else n in
    <["num_disks" := VInt n]> d
  else if single_node kw then
    <["num_disks" := VInt 3]> d
  else d.

Definition scalar_entries (version : option pystr) (kw : kwargs)
    (d : gmap string value) : gmap string value :=
  let d := set_if_truthy "os" VStr (os kw) d in
  let d := num_disks_entry kw d in
  let d := set_if_truthy "cpus" VInt (cpus kw) d in
  let d := set_if_truthy "ram" VInt (ram kw) d in
  let d := set_if_truthy "disk_size" VInt (disk_size kw) d in
  let d := set_if_truthy "libvirt_host" VStr (libvirt_host kw) d in
  let d := set_if_truthy "libvirt_user" VStr (libvirt_user kw) d in
  let d := set_if_truthy "libvirt_storage_pool" VStr (libvirt_storage_pool kw) d in
  let d := set_if_not_None "use_deepsea_cli" VBool (deepsea_cli kw) d in
  let d := set_if_not_None "stop_before_stage" VInt (stop_before_deepsea_stage kw) d in
  let d := set_if_truthy "deepsea_git_repo" VStr (deepsea_repo kw) d in
  let d := set_if_truthy "deepsea_git_branch" VStr (deepsea_branch kw) d in
  let d := set_if_not_None "version" VStr version d in
  let d := set_if_truthy "repos" VStrList (repo kw) d in
  let d := set_if_truthy "vagrant_box" VStr (vagrant_box kw) d in
  d.

(** click's defaults: no option on the command line. *)
Definition no_options : kwargs :=
  Kwargs None None None false None None None (Some true) None None None
    (Some []) None None None None.

Definition set_roles (r : pystr) (kw : kwargs) : kwargs :=
  Kwargs (Some r) (os kw) (num_disks kw) (single_node kw) (libvirt_host kw)
    (libvirt_user kw) (libvirt_storage_pool kw) (deepsea_cli kw)
    (stop_before_deepsea_stage kw) (deepsea_repo kw) (deepsea_branch kw)
    (repo kw) (cpus kw) (ram kw) (disk_size kw) (vagrant_box kw).

Definition set_num_disks (n : Z) (kw : kwargs) : kwargs :=
  Kwargs (roles kw) (os kw) (Some n) (single_node kw) (libvirt_host kw)
    (libvirt_user kw) (libvirt_storage_pool kw) (deepsea_cli kw)
    (stop_before_deepsea_stage kw) (deepsea_repo kw) (deepsea_branch kw)
    (repo kw) (cpus kw) (ram kw) (disk_size kw) (vagrant_box kw).

Definition set_single_node (b : bool) (kw : kwargs) : kwargs :=
  Kwargs (roles kw) (os kw) (num_disks kw) b (libvirt_host kw)
    (libvirt_user kw) (libvirt_storage_pool kw) (deepsea_cli kw)
    (stop_before_deepsea_stage kw) (deepsea_repo kw) (deepsea_branch kw)
    (repo kw) (cpus kw) (ram kw) (disk_size kw) (vagrant_box kw).

(** A key is emitted exactly when its input is true, with the input as
    its value. *)
Definition truthy_gated {A} `{Truthy A} (d : gmap string value) (k : string)
    (inj : A -> value) (x : option A) : Prop :=
  (is_Some (d !! k) <-> truthy x = true) /\
  (forall a, x = Some a -> truthy a = true -> d !! k = Some (inj a)).

(** Zero CPUs, an empty OS name, 4 GB of RAM, stage 0 and [--salt-run]. *)
Definition falsy_options : kwargs :=
  Kwargs None (Some empty_str) None false None None None (Some false) (Some 0%Z)
    None None (Some []) (Some 0%Z) (Some 4%Z) None None.

(** A role token that is not empty and holds no bracket and no comma. *)
Definition token_ok (t : pystr) : bool :=
  truthy t && forallb (fun c => negb ((c =? 91) || (c =? 93) || (c =? 44))%N) t.

(** A token without bracket, comma, or white space at either end. *)
Definition plain (t : pystr) : Prop :=
  (91%N ∉ t) /\ (93%N ∉ t) /\ (44%N ∉ t) /\ trimmed t.

(** The fragments of a rendered node: after the opening fragment, each
    token comes with the space that follows the comma, and the last one
    with the closing bracket. *)
Fixpoint inner_frags (t : pystr) (ts : list pystr) : list pystr :=
  match ts with
  | [] => [str " " ++ t ++ str "]"]
  | t' :: ts' => (str " " ++ t) :: inner_frags t' ts'
  end.

Definition node_frags (n : list pystr) : list pystr :=
  match n with
  | [] => [str "[]"]
  | [t] => [str "[" ++ t ++ str "]"]
  | t :: t' :: ts => (str "[" ++ t) :: inner_frags t' ts
  end.

(** ** The other commands and helpers of the source *)

(** [_decorator_composer]: the decorators are applied to [func] from the
    head of the list on. *)
Fixpoint _decorator_composer {A} (decorator_list : list (A -> A)) (func : A) : A :=
  match decorator_list with
  | [] => func
  | head :: tail => _decorator_composer tail (head func)
  end.

(** [ses7], [nautilus] and [octopus], up to their call of
    [_create_command], like [ses5] and [ses6]. *)
Definition ses7 (use_deepsea : bool) (kw : kwargs)
  : result (store * gmap string value) :=
  '(h, d) ← _gen_settings_dict (Some (str "ses7")) kw;
  let d := if use_deepsea
           then <["deployment_tool" := VStr (str "deepsea")]> d else d in
  Ok (h, d).

Definition nautilus (kw : kwargs) : result (store * gmap string value) :=
  _gen_settings_dict (Some (str "nautilus")) kw.

Definition octopus (use_deepsea : bool) (kw : kwargs)
  : result (store * gmap string value) :=
  '(h, d) ← _gen_settings_dict (Some (str "octopus")) kw;
  Ok (h, <["deployment_tool" := VStr (str "deepsea")]> d).

(** What [_create_command] does to the outside, in order: the calls into
    [seslib] and [click]. *)
Inductive event :=
| SettingsNew (h : store) (d : gmap string value)
| DeploymentCreate (deployment_id : pystr)
| DepStatus
| Echo (message : pystr)
| Confirm (text : pystr) (default : bool)
| DepStart
| DepDestroy.

(** What the outside answers: the text of [dep.status()], the answer to
    [click.confirm] and [dep.settings.version]. *)
Record answers := Answers {
  dep_status : pystr;
  confirmed : bool;
  dep_version : pystr
}.

(** [_create_command], when every external call returns. *)
Definition _create_command (a : answers) (deployment_id : pystr) (deploy : bool)
    (h : store) (settings_dict : gmap string value) : list event :=
  [SettingsNew h settings_dict;
   DeploymentCreate deployment_id;
   Echo (str "=== Creating deployment with the following configuration ===");
   DepStatus;
   Echo (dep_status a)] ++
  (if deploy then
     Confirm (str "Do you want to continue with the deployment?") true ::
     (if confirmed a then
        [DepStart;
         Echo (str "=== Deployment Finished ===");
         Echo empty_str;
         Echo (str "You can login into the cluster with:");
         Echo empty_str;
         Echo (str "  $ sesdev ssh " ++ deployment_id);
         Echo empty_str] ++
        (if streq (dep_version a) (str "ses5") then
           [Echo (str "Or, access openATTIC with:");
            Echo empty_str;
            Echo (str "  $ sesdev tunnel " ++ deployment_id ++ str " openattic")]
         else
           [Echo (str "Or, access the Ceph Dashboard with:");
            Echo empty_str;
            Echo (str "  $ sesdev tunnel " ++ deployment_id ++ str " dashboard");
            Echo empty_str])
      else [DepDestroy])
   else []).

(** The format specifications of the [list] command on a string:
    [{:<width}] and [{:^width}]. *)
Definition format_left (width : nat) (s : pystr) : pystr :=
  s ++ replicate (width - length s) 32%N.

Definition format_center (width : nat) (s : pystr) : pystr :=
  let pad := width - length s in
  replicate (pad / 2) 32%N ++ s ++ replicate (pad - pad / 2) 32%N.

(** A deployment as the [list] command reads it. *)
Record deployment := Deployment {
  dep_id : pystr;
  nodes : list (pystr * pystr)      (* node name, [status] of the node *)
}.

Definition list_header : pystr :=
  str "| " ++ format_center 11 (str "Deployments") ++ str " | " ++
  format_center 15 (str "Status") ++ str " | " ++
  format_center 60 (str "VMs") ++ str " |".

Definition list_rule : pystr := replicate 96 45%N.

Definition list_row (dep_id st vms : pystr) : pystr :=
  str "| " ++ format_left 11 dep_id ++ str " | " ++
  format_left 15 st ++ str " | " ++ format_left 60 vms ++ str " |".

(** The loop of the [list] command: the lines echoed, and the exception
    that ended the loop, if any. *)
Fixpoint list_rows (deps : list deployment) : list pystr * option exn :=
  match deps with
  | [] => ([], None)
  | dep :: deps' =>
      match _status (nodes dep) with
      | Raise e => ([], Some e)
      | Ok st =>
          let row := list_row (dep_id dep) st (join (str ", ") (map fst (nodes dep))) in
          let '(rows, e) := list_rows deps' in
          (row :: rows, e)
      end
  end.

(** The [list] command on the deployments [seslib] returns. *)
Definition cli_list (deps : list deployment) : list pystr * option exn :=
  let '(rows, e) := list_rows deps in
  match e with
  | None => (list_header :: list_rule :: rows ++ [empty_str], None)
  | Some _ => (list_header :: list_rule :: rows, e)
  end.

(** The number of fragments that close a group. *)
Definition count_closing (frags : list pystr) : nat :=
  length (List.filter closes frags).

(** Every list of the store has a token, and no token has a comma. *)
Definition store_ok (h : store) : Prop :=
  Forall (fun l => l <> [] /\ Forall (fun t => COMMA ∉ t) l) h.

(** The keys [_gen_settings_dict] can write. *)
Definition settings_keys : list string :=
  ["roles"; "os"; "num_disks"; "cpus"; "ram"; "disk_size"; "libvirt_host";
   "libvirt_user"; "libvirt_storage_pool"; "use_deepsea_cli";
   "stop_before_stage"; "deepsea_git_repo"; "deepsea_git_branch"; "version";
   "repos"; "vagrant_box"]%string.

(** Some node has the status [x]. *)
Definition has_status (x : pystr) (sts : list pystr) : bool :=
  existsb (fun y => streq y x) sts.

(** The cluster status as a table: from the status of the admin node
    and the statuses that occur among the nodes. *)
Definition status_table (a : pystr) (sts : list pystr) : pystr :=
  if streq a (str "not deployed") then
    if has_status (str "running") sts then str "partially deployed" else a
  else if streq a (str "running") then
    if has_status (str "stopped") sts || has_status (str "suspended") sts
    then str "partially running" else a
  else if streq a (str "stopped") || streq a (str "suspended") then
    if has_status (str "running") sts then str "partially running" else a
  else a.

(** The deployment has a node named admin. *)
Definition has_admin (dep : deployment) : Prop :=
  str "admin" ∈ map fst (nodes dep).

(** The kinds of event. *)
Definition is_start (e : event) : bool :=
  match e with DepStart => true | _ => false end.
Definition is_destroy (e : event) : bool :=
  match e with DepDestroy => true | _ => false end.
Definition is_confirm (e : event) : bool :=
  match e with Confirm _ _ => true | _ => false end.
Definition is_create (e : event) : bool :=
  match e with DeploymentCreate _ => true | _ => false end.

(** The row of a deployment that has an admin node, with its status
    read from the table. *)
Definition dep_row (dep : deployment) : pystr :=
  match getitem (nodes dep) (str "admin") with
  | Ok a =>
      list_row (dep_id dep) (status_table a (map snd (nodes dep)))
        (join (str ", ") (map fst (nodes dep)))
  | Raise _ => []
  end.

(** The command reaches [_create_command], and the roles entry of the
    configuration it passes is the role list [rl], by value. *)
Definition hands_over (r : result (store * gmap string value))
    (rl : list (list pystr)) : Prop :=
  exists h d refs,
    r = Ok (h, d) /\ d !! "roles" = Some (VRoles refs) /\
    roles_value h refs = rl.

(** * Properties *)

(** ** Strings *)

Local Open Scope N_scope.

Lemma streq_spec (a b : pystr) : reflect (a = b) (streq a b).
Proof.
  revert b; induction a as [|x a IH]; intros [|y b]; simpl;
    try (constructor; congruence).
  destruct (N.eqb_spec x y) as [->|Hne]; simpl.
  - destruct (IH b) as [->|Hne]; constructor; congruence.
  - constructor; congruence.
Qed.

Lemma startswith_char (s : pystr) (c : N) :
  startswith s [c] = true <-> head s = Some c.
Proof.
  destruct s as [|d s]; simpl; [split; discriminate|].
  rewrite andb_true_r, N.eqb_eq. split; congruence.
Qed.

Lemma endswith_char (s : pystr) (c : N) :
  endswith s [c] = true <-> last s = Some c.
Proof.
  unfold endswith. change (reverse [c]) with [c].
  rewrite startswith_char, head_reverse. reflexivity.
Qed.

Lemma split_nonempty (s : pystr) (c : N) : split s c <> [].
Proof.
  destruct s as [|x s]; simpl; [discriminate|].
  destruct (x =? c); [discriminate|]. destruct (split s c); discriminate.
Qed.

Lemma split_app_sep (x y : pystr) (c : N) :
  split (x ++ c :: y) c = split x c ++ split y c.
Proof.
  induction x as [|a x IH]; simpl.
  - rewrite N.eqb_refl. reflexivity.
  - destruct (a =? c); [rewrite IH; reflexivity|].
    rewrite IH. pose proof (split_nonempty x c).
    destruct (split x c); [contradiction|reflexivity].
Qed.

Lemma split_no_sep (x : pystr) (c : N) : c ∉ x -> split x c = [x].
Proof.
  induction x as [|a x IH]; simpl; intros Hc; [reflexivity|].
  apply not_elem_of_cons in Hc as [Hne Hc].
  destruct (N.eqb_spec a c); [congruence|]. rewrite IH by assumption.
  reflexivity.
Qed.

(** *** Stripping *)

Lemma lstrip_head (s : pystr) (c : N) :
  head (lstrip s) = Some c -> isspace c = false.
Proof.
  induction s as [|d s IH]; simpl; [discriminate|].
  destruct (isspace d) eqn:Hd; [assumption|]. simpl. congruence.
Qed.

Lemma lstrip_id (s : pystr) :
  (forall c, head s = Some c -> isspace c = false) -> lstrip s = s.
Proof.
  destruct s as [|d s]; simpl; [reflexivity|]. intros H.
  rewrite (H d eq_refl). reflexivity.
Qed.

Lemma lstrip_suffix (s : pystr) : exists k, s = k ++ lstrip s.
Proof.
  induction s as [|d s [k IH]]; simpl; [exists []; reflexivity|].
  destruct (isspace d).
  - exists (d :: k). simpl. congruence.
  - exists []. reflexivity.
Qed.

Lemma rstrip_prefix (s : pystr) : exists k, s = rstrip s ++ k.
Proof.
  unfold rstrip. destruct (lstrip_suffix (reverse s)) as [k Hk].
  exists (reverse k). rewrite <- reverse_app, <- Hk, reverse_involutive.
  reflexivity.
Qed.

Lemma rstrip_last (s : pystr) (c : N) :
  last (rstrip s) = Some c -> isspace c = false.
Proof. unfold rstrip. rewrite last_reverse. apply lstrip_head. Qed.

Lemma rstrip_id (s : pystr) :
  (forall c, last s = Some c -> isspace c = false) -> rstrip s = s.
Proof.
  intros H. unfold rstrip. rewrite lstrip_id.
  - apply reverse_involutive.
  - intros c. rewrite head_reverse. apply H.
Qed.

Lemma strip_trimmed (s : pystr) : trimmed (strip s).
Proof.
  split; intros c Hc.
  - unfold strip in Hc. destruct (rstrip_prefix (lstrip s)) as [k Hk].
    apply (lstrip_head s). rewrite Hk.
    destruct (rstrip (lstrip s)); [discriminate|exact Hc].
  - exact (rstrip_last _ _ Hc).
Qed.

Lemma strip_id (s : pystr) : trimmed s -> strip s = s.
Proof.
  intros [Hh Hl]. unfold strip. rewrite (lstrip_id s Hh). apply rstrip_id, Hl.
Qed.

Lemma strip_idemp (s : pystr) : strip (strip s) = strip s.
Proof. apply strip_id, strip_trimmed. Qed.

Lemma strip_fixed_trimmed (s : pystr) : strip s = s -> trimmed s.
Proof. intros <-. apply strip_trimmed. Qed.

Local Close Scope N_scope.

(** ** The parser *)

Lemma for_each_app {S A} (body : S -> A -> result S) (st : S) (l1 l2 : list A) :
  for_each body st (l1 ++ l2) = st' ← for_each body st l1; for_each body st' l2.
Proof.
  revert st; induction l1 as [|a l1 IH]; simpl; intros st; [reflexivity|].
  destruct (body st a) as [st1|e]; simpl; [apply IH|reflexivity].
Qed.

Lemma parse_step_strip (st : parser_state) (r : pystr) :
  parse_step st (strip r) = parse_step st r.
Proof. unfold parse_step. rewrite strip_idemp. reflexivity. Qed.

Lemma parse_loop_strip (st : parser_state) (l : list pystr) :
  parse_loop st (map strip l) = parse_loop st l.
Proof.
  unfold parse_loop. revert st; induction l as [|r l IH]; simpl; intros st;
    [reflexivity|].
  rewrite parse_step_strip. destruct (parse_step st r); simpl; auto.
Qed.

Lemma parse_loop_cons (st : parser_state) (r : pystr) (l : list pystr) :
  parse_loop st (r :: l) = st' ← parse_step st r; parse_loop st' l.
Proof. reflexivity. Qed.

Lemma parse_loop_nil (st : parser_state) : parse_loop st [] = Ok st.
Proof. reflexivity. Qed.

Lemma bind_Ok {A B} (a : A) (k : A -> result B) : (Ok a ≫= k) = k a.
Proof. reflexivity. Qed.

Lemma parse_loop_app (st : parser_state) (l1 l2 : list pystr) :
  parse_loop st (l1 ++ l2) = st' ← parse_loop st l1; parse_loop st' l2.
Proof. apply for_each_app. Qed.

Lemma wf_init : wf_state parse_init.
Proof. split; [constructor|discriminate]. Qed.

Lemma parse_step_wf (st st' : parser_state) (r : pystr) :
  wf_state st -> parse_step st r = Ok st' -> wf_state st'.
Proof.
  intros [Hr Hn]. unfold parse_step, node_append, new_node, roles_append.
  destruct (startswith _ _); [destruct (endswith _ _)|destruct (endswith _ _)];
    simpl; try (destruct (_node st) as [id|] eqn:Hid; simpl; [|discriminate]);
    intros [= <-]; split; simpl;
    unfold list_append; rewrite ?length_alter, ?length_app; simpl;
    try (intros ? [= <-]); try lia; try (apply Hn; assumption);
    rewrite ?Forall_app, ?Forall_singleton; repeat split;
    try (eapply Forall_impl; [exact Hr|simpl; intros; lia]);
    try lia; try (apply Hn; reflexivity); try assumption.
Qed.

Lemma parse_loop_wf (l : list pystr) (st st' : parser_state) :
  wf_state st -> parse_loop st l = Ok st' -> wf_state st'.
Proof.
  unfold parse_loop. revert st; induction l as [|r l IH]; simpl; intros st Hwf.
  - intros [= <-]. assumption.
  - destruct (parse_step st r) as [st1|e] eqn:Hstep; simpl; [|discriminate].
    apply IH. eapply parse_step_wf; eassumption.
Qed.

Lemma roles_value_app_l (h ext : store) (refs : list nat) :
  Forall (fun id => id < length h) refs ->
  roles_value (h ++ ext) refs = roles_value h refs.
Proof.
  intros Hr. unfold roles_value. apply map_ext_Forall.
  eapply Forall_impl; [exact Hr|]. simpl. intros id Hid.
  rewrite lookup_app_l by assumption. reflexivity.
Qed.

Lemma parse_step_unclosed (st0 st : parser_state) (r : pystr) :
  extends st0 st -> closes r = false ->
  exists st', parse_step st r = Ok st' /\ extends st0 st'.
Proof.
  intros (ext & id & Hh & Hr & Hn & Hid) Hc. unfold closes in Hc.
  unfold parse_step. rewrite Hc. destruct (startswith _ _).
  - unfold node_append, new_node. simpl. eexists; split; [reflexivity|].
    exists (list_append (length ext) (drop_first (strip r)) (ext ++ [[]])),
      (length (heap st)). simpl. unfold list_append. repeat split.
    + rewrite Hh, <- app_assoc, length_app, alter_app_r. reflexivity.
    + assumption.
    + rewrite Hh, length_app. lia.
  - unfold node_append. rewrite Hn. simpl. eexists; split; [reflexivity|].
    exists (list_append (id - length (heap st0)) (strip r) ext), id. simpl.
    unfold list_append. repeat split; try assumption.
    rewrite Hh. replace id with (length (heap st0) + (id - length (heap st0)))
      at 1 by lia. apply alter_app_r.
Qed.

Lemma parse_loop_unclosed (l : list pystr) (st0 st : parser_state) :
  extends st0 st -> Forall (fun r => closes r = false) l ->
  exists st', parse_loop st l = Ok st' /\ extends st0 st'.
Proof.
  unfold parse_loop. revert st; induction l as [|r l IH]; simpl; intros st He Hl.
  - eauto.
  - apply Forall_cons in Hl as [Hr Hl].
    destruct (parse_step_unclosed st0 st r He Hr) as (st1 & -> & He1). simpl.
    apply IH; assumption.
Qed.

Lemma parse_step_open_unclosed (st : parser_state) (o : pystr) :
  opens o = true -> closes o = false ->
  exists st', parse_step st o = Ok st' /\ extends st st'.
Proof.
  unfold opens, closes, parse_step. intros -> ->.
  unfold node_append, new_node. simpl. eexists; split; [reflexivity|].
  exists [[drop_first (strip o)]], (length (heap st)). simpl. repeat split; [|lia].
  unfold list_append.
  replace (length (heap st)) with (length (heap st) + 0) at 1 by lia.
  rewrite alter_app_r. reflexivity.
Qed.

Lemma parse_step_no_node (st : parser_state) (r : pystr) :
  _node st = None -> opens r = false -> parse_step st r = Raise AttributeError.
Proof.
  unfold opens, parse_step, node_append. intros Hn ->. rewrite Hn.
  destruct (endswith _ _); reflexivity.
Qed.

(** C10. When the first comma-separated fragment of the input, once
    stripped, does not start with an opening bracket, [_parse_roles]
    raises [AttributeError]: it appends to [_node], which is still
    [None]. It returns no role list. *)
Theorem parse_roles_first_fragment_unbracketed (s f : pystr) (fs : list pystr) :
  split s COMMA = f :: fs ->
  startswith (strip f) (str "[") = false ->
  _parse_roles s = Raise AttributeError.
Proof.
  intros Hs Hf. unfold _parse_roles. rewrite Hs, parse_loop_strip.
  unfold parse_loop. simpl.
  rewrite (parse_step_no_node parse_init f eq_refl Hf). reflexivity.
Qed.

Lemma parse_roles_first_fragment_unbracketed_witness :
  _parse_roles empty_str = Raise AttributeError /\
  _parse_roles (str "admin, mon") = Raise AttributeError /\
  _parse_roles (str " admin], [mon]") = Raise AttributeError.
Proof.
  split; [|split].
  - exact (parse_roles_first_fragment_unbracketed empty_str empty_str []
             eq_refl eq_refl).
  - exact (parse_roles_first_fragment_unbracketed (str "admin, mon")
             (str "admin") [str " mon"] eq_refl eq_refl).
  - exact (parse_roles_first_fragment_unbracketed (str " admin], [mon]")
             (str " admin]") [str " [mon]"] eq_refl eq_refl).
Defined.

(** C7. The parser strips each comma-separated fragment, and only then
    removes the brackets: white space between an opening bracket and the
    first token, or between the last token and the closing bracket, stays
    in the token, while the same white space around the other tokens of
    the group is removed. *)
Theorem parse_roles_space_inside_brackets :
  parse (str "[ admin]") = Ok [[str " admin"]] /\
  parse (str "[admin ]") = Ok [[str "admin "]] /\
  parse (str "[ admin , mon , mgr ]") = Ok [[str " admin"; str "mon"; str "mgr "]].
Proof. repeat split; vm_compute; reflexivity. Qed.

(** ** Settings derivation *)

Lemma gen_settings_dict_stages (version : option pystr) (kw : kwargs) :
  _gen_settings_dict version kw =
  '(h, d) ← roles_entry kw; Ok (h, scalar_entries version kw d).
Proof. reflexivity. Qed.

Lemma lookup_set_if_truthy_eq {A} `{Truthy A} (k : string) (inj : A -> value)
    (x : option A) (d : gmap string value) :
  set_if_truthy k inj x d !! k = if truthy x then inj <$> x else d !! k.
Proof.
  unfold set_if_truthy. destruct x as [a|]; simpl; [|reflexivity].
  unfold truthy at 2; simpl. destruct (truthy a); [|reflexivity].
  apply lookup_insert_eq.
Qed.

Lemma lookup_set_if_truthy_ne {A} `{Truthy A} (k k' : string) (inj : A -> value)
    (x : option A) (d : gmap string value) :
  k <> k' -> set_if_truthy k inj x d !! k' = d !! k'.
Proof.
  intros Hk. unfold set_if_truthy. destruct x as [a|]; [|reflexivity].
  destruct (truthy a); [|reflexivity]. apply lookup_insert_ne, Hk.
Qed.

Lemma lookup_set_if_not_None_eq {A} (k : string) (inj : A -> value)
    (x : option A) (d : gmap string value) :
  set_if_not_None k inj x d !! k = match x with Some a => Some (inj a) | None => d !! k end.
Proof.
  unfold set_if_not_None. destruct x as [a|]; [|reflexivity].
  apply lookup_insert_eq.
Qed.

Lemma lookup_set_if_not_None_ne {A} (k k' : string) (inj : A -> value)
    (x : option A) (d : gmap string value) :
  k <> k' -> set_if_not_None k inj x d !! k' = d !! k'.
Proof.
  intros Hk. unfold set_if_not_None. destruct x as [a|]; [|reflexivity].
  apply lookup_insert_ne, Hk.
Qed.

Lemma lookup_num_disks_entry_ne (kw : kwargs) (k : string) (d : gmap string value) :
  "num_disks" <> k -> num_disks_entry kw d !! k = d !! k.
Proof.
  intros Hk. unfold num_disks_entry.
  destruct (truthy (num_disks kw)); [apply lookup_insert_ne, Hk|].
  destruct (single_node kw); [apply lookup_insert_ne, Hk|reflexivity].
Qed.

(** Look a key up through the entries that do not write it. *)
Ltac skip_entries :=
  repeat first
    [ rewrite lookup_set_if_truthy_ne by discriminate
    | rewrite lookup_set_if_not_None_ne by discriminate
    | rewrite lookup_num_disks_entry_ne by discriminate ].

Lemma roles_entry_lookup_ne (kw : kwargs) (h : store) (d : gmap string value)
    (k : string) :
  roles_entry kw = Ok (h, d) -> "roles" <> k -> d !! k = None.
Proof.
  unfold roles_entry. intros H Hk.
  destruct (negb (single_node kw) && truthy (roles kw)).
  - destruct (_parse_roles _) as [[h0 refs]|e]; simpl in H; [|discriminate].
    injection H as <- <-. rewrite lookup_insert_ne by assumption.
    apply lookup_empty.
  - destruct (single_node kw); injection H as <- <-.
    + rewrite lookup_insert_ne by assumption. apply lookup_empty.
    + apply lookup_empty.
Qed.

Lemma scalar_entries_lookup_roles (version : option pystr) (kw : kwargs)
    (d : gmap string value) :
  scalar_entries version kw d !! "roles" = d !! "roles".
Proof. unfold scalar_entries. cbv zeta. skip_entries. reflexivity. Qed.

Lemma gen_settings_dict_inv (version : option pystr) (kw : kwargs) (h : store)
    (d : gmap string value) :
  _gen_settings_dict version kw = Ok (h, d) ->
  exists d0, roles_entry kw = Ok (h, d0) /\ d = scalar_entries version kw d0.
Proof.
  rewrite gen_settings_dict_stages.
  destruct (roles_entry kw) as [[h0 d0]|e]; simpl; [|discriminate].
  intros [= <- <-]. eauto.
Qed.

Lemma gen_settings_dict_lookup_roles (version : option pystr) (kw : kwargs)
    (h : store) (d0 : gmap string value) :
  roles_entry kw = Ok (h, d0) ->
  exists d, _gen_settings_dict version kw = Ok (h, d) /\ d !! "roles" = d0 !! "roles".
Proof.
  intros H. rewrite gen_settings_dict_stages, H. simpl.
  eexists; split; [reflexivity|]. apply scalar_entries_lookup_roles.
Qed.

(** The derivation raises only what the parser raises. *)
Lemma gen_settings_dict_raise (version : option pystr) (kw : kwargs) (e : exn) :
  _gen_settings_dict version kw = Raise e <->
  single_node kw = false /\ truthy (roles kw) = true /\
  _parse_roles (default [] (roles kw)) = Raise e.
Proof.
  rewrite gen_settings_dict_stages. unfold roles_entry.
  destruct (single_node kw); simpl.
  - split; [discriminate|]. intros [? _]; discriminate.
  - destruct (truthy (roles kw)); simpl.
    + destruct (_parse_roles _) as [[h refs]|e']; simpl.
      * split; [discriminate|]. intros (_ & _ & ?); discriminate.
      * split; [intros [= ->]; auto|]. intros (_ & _ & [= ->]). reflexivity.
    + split; [discriminate|]. intros (_ & ? & _); discriminate.
Qed.

Lemma roles_entry_single_node (kw : kwargs) :
  single_node kw = true ->
  roles_entry kw = Ok ([single_node_roles], {["roles" := VRoles [0]]}).
Proof. unfold roles_entry. intros ->. reflexivity. Qed.

Lemma roles_entry_parsed (kw : kwargs) (r : pystr) :
  single_node kw = false -> roles kw = Some r -> r <> [] ->
  roles_entry kw =
  '(h, refs) ← _parse_roles r; Ok (h, {["roles" := VRoles refs]}).
Proof.
  unfold roles_entry. intros -> -> Hr. simpl.
  destruct r; [contradiction|reflexivity].
Qed.

Lemma roles_entry_none (kw : kwargs) :
  single_node kw = false -> truthy (roles kw) = false ->
  roles_entry kw = Ok ([], ∅).
Proof. unfold roles_entry. intros -> ->. reflexivity. Qed.

(** The roles entry holds references into the store that comes with it. *)
Lemma roles_entry_wf (kw : kwargs) (h : store) (d : gmap string value) :
  roles_entry kw = Ok (h, d) ->
  d !! "roles" = None \/
  exists refs, d !! "roles" = Some (VRoles refs) /\
    Forall (fun id => id < length h) refs.
Proof.
  unfold roles_entry.
  destruct (negb (single_node kw) && truthy (roles kw)).
  - unfold _parse_roles. rewrite parse_loop_strip.
    destruct (parse_loop parse_init _) as [st|e] eqn:Hl; simpl; [|discriminate].
    intros [= <- <-]. right. exists (_roles st). split.
    + apply lookup_insert_eq.
    + apply (parse_loop_wf _ _ _ wf_init Hl).
  - destruct (single_node kw); intros [= <- <-].
    + right. exists [0]. split; [apply lookup_insert_eq|].
      repeat constructor.
    + left. apply lookup_empty.
Qed.

Lemma lookup_num_disks_entry_eq (kw : kwargs) (d : gmap string value) :
  d !! "num_disks" = None ->
  num_disks_entry kw d !! "num_disks" =
  match num_disks kw with
  | Some n =>
      if (n =? 0)%Z then (if single_node kw then Some (VInt 3) else None)
      else Some (VInt (if single_node kw && (n <? 3)%Z then 3%Z else n))
  | None => if single_node kw then Some (VInt 3) else None
  end.
Proof.
  intros Hd. unfold num_disks_entry.
  destruct (num_disks kw) as [n|]; cbv [truthy truthy_option truthy_int default].
  - destruct (n =? 0)%Z; simpl.
    + destruct (single_node kw); [apply lookup_insert_eq|assumption].
    + apply lookup_insert_eq.
  - destruct (single_node kw); [apply lookup_insert_eq|assumption].
Qed.

Lemma gen_settings_dict_lookup_num_disks (version : option pystr) (kw : kwargs)
    (h : store) (d : gmap string value) :
  _gen_settings_dict version kw = Ok (h, d) ->
  d !! "num_disks" =
  match num_disks kw with
  | Some n =>
      if (n =? 0)%Z then (if single_node kw then Some (VInt 3) else None)
      else Some (VInt (if single_node kw && (n <? 3)%Z then 3%Z else n))
  | None => if single_node kw then Some (VInt 3) else None
  end.
Proof.
  intros (d0 & Hd0 & ->)%gen_settings_dict_inv.
  unfold scalar_entries. cbv zeta. skip_entries.
  apply lookup_num_disks_entry_eq. skip_entries.
  apply (roles_entry_lookup_ne _ _ _ _ Hd0). discriminate.
Qed.

Lemma gen_settings_dict_single_node (version : option pystr) (kw : kwargs) :
  single_node kw = true ->
  exists d, _gen_settings_dict version kw = Ok ([single_node_roles], d) /\
    d !! "roles" = Some (VRoles [0]).
Proof.
  intros Hs.
  destruct (gen_settings_dict_lookup_roles version kw _ _
              (roles_entry_single_node kw Hs)) as (d & Hd & Hr).
  exists d. split; [assumption|]. rewrite Hr. apply lookup_insert_eq.
Qed.

(** C4. In single-node mode the derivation always succeeds and emits
    [num_disks]: 3 when no disk count is given, 3 when the given count is
    below 3, the given count when it is 3 or more (5 gives 5).  With
    single-node mode off and no disk count, a derived configuration has
    no [num_disks] key. *)
Theorem gen_settings_dict_disk_floor (version : option pystr) (kw : kwargs) :
  (single_node kw = true -> num_disks kw = None ->
   exists h d, _gen_settings_dict version kw = Ok (h, d) /\
     d !! "num_disks" = Some (VInt 3)) /\
  (single_node kw = true -> forall n, num_disks kw = Some n -> (n < 3)%Z ->
   exists h d, _gen_settings_dict version kw = Ok (h, d) /\
     d !! "num_disks" = Some (VInt 3)) /\
  (single_node kw = true -> forall n, num_disks kw = Some n -> (3 <= n)%Z ->
   exists h d, _gen_settings_dict version kw = Ok (h, d) /\
     d !! "num_disks" = Some (VInt n)) /\
  (single_node kw = false -> num_disks kw = None ->
   forall h d, _gen_settings_dict version kw = Ok (h, d) ->
     d !! "num_disks" = None).
Proof.
  repeat split.
  - intros Hs Hn.
    destruct (gen_settings_dict_single_node version kw Hs) as (d & Hd & _).
    exists [single_node_roles], d. split; [assumption|].
    rewrite (gen_settings_dict_lookup_num_disks _ _ _ _ Hd), Hn, Hs.
    reflexivity.
  - intros Hs n Hn Hlt.
    destruct (gen_settings_dict_single_node version kw Hs) as (d & Hd & _).
    exists [single_node_roles], d. split; [assumption|].
    rewrite (gen_settings_dict_lookup_num_disks _ _ _ _ Hd), Hn, Hs. simpl.
    destruct (Z.eqb_spec n 0); [reflexivity|].
    destruct (Z.ltb_spec n 3); [reflexivity|lia].
  - intros Hs n Hn Hge.
    destruct (gen_settings_dict_single_node version kw Hs) as (d & Hd & _).
    exists [single_node_roles], d. split; [assumption|].
    rewrite (gen_settings_dict_lookup_num_disks _ _ _ _ Hd), Hn, Hs. simpl.
    destruct (Z.eqb_spec n 0); [lia|].
    destruct (Z.ltb_spec n 3); [lia|reflexivity].
  - intros Hs Hn h d Hd.
    rewrite (gen_settings_dict_lookup_num_disks _ _ _ _ Hd), Hn, Hs.
    reflexivity.
Qed.

Lemma gen_settings_dict_disk_floor_witness :
  (exists h d,
     _gen_settings_dict (Some (str "ses6")) (set_single_node true no_options)
       = Ok (h, d) /\ d !! "num_disks" = Some (VInt 3)) /\
  (exists h d,
     _gen_settings_dict (Some (str "ses6"))
       (set_num_disks 2 (set_single_node true no_options))
       = Ok (h, d) /\ d !! "num_disks" = Some (VInt 3)) /\
  (exists h d,
     _gen_settings_dict (Some (str "ses6"))
       (set_num_disks 5 (set_single_node true no_options))
       = Ok (h, d) /\ d !! "num_disks" = Some (VInt 5)) /\
  (forall h d,
     _gen_settings_dict (Some (str "ses6")) no_options = Ok (h, d) ->
     d !! "num_disks" = None).
Proof.
  split; [|split; [|split]].
  - apply (proj1 (gen_settings_dict_disk_floor (Some (str "ses6"))
             (set_single_node true no_options))); reflexivity.
  - apply (proj1 (proj2 (gen_settings_dict_disk_floor (Some (str "ses6"))
             (set_num_disks 2 (set_single_node true no_options))))
             eq_refl 2%Z eq_refl). reflexivity.
  - apply (proj1 (proj2 (proj2 (gen_settings_dict_disk_floor (Some (str "ses6"))
             (set_num_disks 5 (set_single_node true no_options)))))
             eq_refl 5%Z eq_refl). discriminate.
  - apply (proj2 (proj2 (proj2 (gen_settings_dict_disk_floor
             (Some (str "ses6")) no_options)))); reflexivity.
Defined.

Lemma truthy_gated_intro {A} `{Truthy A} (d : gmap string value) (k : string)
    (inj : A -> value) (x : option A) :
  d !! k = (if truthy x then inj <$> x else None) -> truthy_gated d k inj x.
Proof.
  unfold truthy_gated. intros ->. destruct x as [a|].
  - change (truthy (Some a)) with (truthy a).
    destruct (truthy a) eqn:Ha; simpl; split.
    + split; [reflexivity|]. intros _. eexists; reflexivity.
    + intros a' [= <-] _. reflexivity.
    + split; [intros [v Hv]; discriminate|discriminate].
    + intros a' [= <-] Ha'. congruence.
  - change (truthy (@None A)) with false. simpl.
    split; [|discriminate]. split; [intros [v Hv]; discriminate|discriminate].
Qed.

Ltac gated_key Hd0 :=
  apply truthy_gated_intro; unfold scalar_entries; cbv zeta; skip_entries;
  rewrite lookup_set_if_truthy_eq; skip_entries;
  rewrite (roles_entry_lookup_ne _ _ _ _ Hd0) by discriminate; reflexivity.

Ltac unset_key Hd0 :=
  unfold scalar_entries; cbv zeta; skip_entries;
  rewrite lookup_set_if_not_None_eq; skip_entries;
  rewrite (roles_entry_lookup_ne _ _ _ _ Hd0) by discriminate;
  match goal with |- context [match ?x with _ => _ end] => destruct x end;
  reflexivity.

(** C6. In a configuration the derivation produces, the keys of OS, CPU
    count, RAM, disk size, the libvirt host, user and storage pool, the
    deepsea repository and branch, the repository URLs and the vagrant
    box are present exactly when their input is true (not [None], not 0,
    not empty), and then hold the input; the deepsea-cli flag and the
    stage index are present whenever their input is not [None], so
    [False] and 0 are emitted. *)
Theorem gen_settings_dict_gated_keys (version : option pystr) (kw : kwargs)
    (h : store) (d : gmap string value) :
  _gen_settings_dict version kw = Ok (h, d) ->
  truthy_gated d "os" VStr (os kw) /\
  truthy_gated d "cpus" VInt (cpus kw) /\
  truthy_gated d "ram" VInt (ram kw) /\
  truthy_gated d "disk_size" VInt (disk_size kw) /\
  truthy_gated d "libvirt_host" VStr (libvirt_host kw) /\
  truthy_gated d "libvirt_user" VStr (libvirt_user kw) /\
  truthy_gated d "libvirt_storage_pool" VStr (libvirt_storage_pool kw) /\
  truthy_gated d "deepsea_git_repo" VStr (deepsea_repo kw) /\
  truthy_gated d "deepsea_git_branch" VStr (deepsea_branch kw) /\
  truthy_gated d "repos" VStrList (repo kw) /\
  truthy_gated d "vagrant_box" VStr (vagrant_box kw) /\
  d !! "use_deepsea_cli" = VBool <$> deepsea_cli kw /\
  d !! "stop_before_stage" = VInt <$> stop_before_deepsea_stage kw.
Proof.
  intros (d0 & Hd0 & ->)%gen_settings_dict_inv.
  repeat (split; [gated_key Hd0|]). split; unset_key Hd0.
Qed.

Lemma gen_settings_dict_gated_keys_witness :
  exists h d,
    _gen_settings_dict (Some (str "ses6")) falsy_options = Ok (h, d) /\
    d !! "stop_before_stage" = Some (VInt 0) /\
    d !! "use_deepsea_cli" = Some (VBool false) /\
    ~ is_Some (d !! "cpus") /\ ~ is_Some (d !! "os") /\
    d !! "ram" = Some (VInt 4).
Proof.
  exists [], (scalar_entries (Some (str "ses6")) falsy_options ∅).
  destruct (gen_settings_dict_gated_keys (Some (str "ses6")) falsy_options []
              (scalar_entries (Some (str "ses6")) falsy_options ∅) eq_refl)
    as (Hos & Hcpus & Hram & _ & _ & _ & _ & _ & _ & _ & _ & Hcli & Hstage).
  split; [reflexivity|]. split; [exact Hstage|]. split; [exact Hcli|].
  split; [|split].
  - intros Hs. apply (proj1 Hcpus) in Hs. discriminate Hs.
  - intros Hs. apply (proj1 Hos) in Hs. discriminate Hs.
  - apply (proj2 Hram 4%Z); reflexivity.
Defined.

(** C5, as stated, fails on an empty roles text: the text is supplied,
    single-node mode is off, and the derivation emits no roles key (the
    parser, which would raise on it, is not called). *)
Lemma gen_settings_dict_blank_roles_no_key :
  roles (set_roles empty_str no_options) = Some empty_str /\
  single_node (set_roles empty_str no_options) = false /\
  parse empty_str = Raise AttributeError /\
  exists d,
    _gen_settings_dict (Some (str "ses6")) (set_roles empty_str no_options)
      = Ok ([], d) /\ d !! "roles" = None.
Proof.
  repeat split.
  destruct (gen_settings_dict_lookup_roles (Some (str "ses6"))
              (set_roles empty_str no_options) [] ∅ eq_refl) as (d & Hd & Hr).
  exists d. split; [exact Hd|]. rewrite Hr. apply lookup_empty.
Qed.

(** C5. In single-node mode the roles entry is one node holding the
    fixed role set, whatever the roles text.  With single-node mode off
    and a roles text that is not empty, the derivation returns what the
    parser returns for that text, as its roles entry, and raises what the
    parser raises.  With single-node mode off and a roles text that is
    [None] or empty, there is no roles key. *)
Theorem gen_settings_dict_roles_entry (version : option pystr) (kw : kwargs) :
  (single_node kw = true ->
   exists d, _gen_settings_dict version kw = Ok ([single_node_roles], d) /\
     d !! "roles" = Some (VRoles [0])) /\
  (single_node kw = false -> forall r, roles kw = Some r -> r <> [] ->
   match _parse_roles r with
   | Ok (h, refs) =>
       exists d, _gen_settings_dict version kw = Ok (h, d) /\
         d !! "roles" = Some (VRoles refs)
   | Raise e => _gen_settings_dict version kw = Raise e
   end) /\
  (single_node kw = false -> truthy (roles kw) = false ->
   exists d, _gen_settings_dict version kw = Ok ([], d) /\
     d !! "roles" = None).
Proof.
  split; [|split].
  - apply gen_settings_dict_single_node.
  - intros Hs r Hr Hne.
    pose proof (roles_entry_parsed kw r Hs Hr Hne) as He.
    destruct (_parse_roles r) as [[h refs]|e] eqn:Hp; simpl in He.
    + destruct (gen_settings_dict_lookup_roles version kw _ _ He)
        as (d & Hd & Hl).
      exists d. split; [exact Hd|]. rewrite Hl. apply lookup_insert_eq.
    + rewrite gen_settings_dict_stages, He. reflexivity.
  - intros Hs Hr.
    destruct (gen_settings_dict_lookup_roles version kw _ _
                (roles_entry_none kw Hs Hr)) as (d & Hd & Hl).
    exists d. split; [exact Hd|]. rewrite Hl. apply lookup_empty.
Qed.

Lemma gen_settings_dict_roles_entry_witness :
  (exists d,
     _gen_settings_dict (Some (str "ses6"))
       (set_single_node true (set_roles (str "[admin],[mon]") no_options))
       = Ok ([single_node_roles], d) /\ d !! "roles" = Some (VRoles [0])) /\
  (exists d,
     _gen_settings_dict (Some (str "ses6"))
       (set_roles (str "[admin, mgr],[mon]") no_options)
       = Ok ([[str "admin"; str "mgr"]; [str "mon"]], d) /\
     d !! "roles" = Some (VRoles [0; 1])) /\
  _gen_settings_dict (Some (str "ses6")) (set_roles (str "admin") no_options)
    = Raise AttributeError /\
  (exists d,
     _gen_settings_dict (Some (str "ses6")) no_options = Ok ([], d) /\
     d !! "roles" = None).
Proof.
  split; [|split; [|split]].
  - apply (proj1 (gen_settings_dict_roles_entry (Some (str "ses6"))
             (set_single_node true (set_roles (str "[admin],[mon]") no_options)))).
    reflexivity.
  - apply (proj1 (proj2 (gen_settings_dict_roles_entry (Some (str "ses6"))
             (set_roles (str "[admin, mgr],[mon]") no_options)))
             eq_refl (str "[admin, mgr],[mon]") eq_refl).
    discriminate.
  - apply (proj1 (proj2 (gen_settings_dict_roles_entry (Some (str "ses6"))
             (set_roles (str "admin") no_options)))
             eq_refl (str "admin") eq_refl).
    discriminate.
  - apply (proj2 (proj2 (gen_settings_dict_roles_entry (Some (str "ses6"))
             no_options))); reflexivity.
Defined.

(** C2, as stated, fails: on the empty string the parser raises. *)
Lemma parse_roles_empty_string_raises :
  _parse_roles empty_str = Raise AttributeError /\ parse empty_str <> Ok [].
Proof. split; [reflexivity|discriminate]. Qed.

(** C2. An empty roles text never reaches the parser: with single-node
    mode off the derivation succeeds on it and emits no roles key. *)
Theorem gen_settings_dict_empty_roles_text (version : option pystr) (kw : kwargs) :
  single_node kw = false -> roles kw = Some empty_str ->
  exists d, _gen_settings_dict version kw = Ok ([], d) /\ d !! "roles" = None.
Proof.
  intros Hs Hr.
  assert (Ht : truthy (roles kw) = false) by (rewrite Hr; reflexivity).
  destruct (gen_settings_dict_lookup_roles version kw _ _
              (roles_entry_none kw Hs Ht)) as (d & Hd & Hl).
  exists d. split; [exact Hd|]. rewrite Hl. apply lookup_empty.
Qed.

Lemma gen_settings_dict_empty_roles_text_witness :
  exists d,
    _gen_settings_dict (Some (str "ses6")) (set_roles empty_str no_options)
      = Ok ([], d) /\ d !! "roles" = None.
Proof.
  exact (gen_settings_dict_empty_roles_text (Some (str "ses6"))
           (set_roles empty_str no_options) eq_refl eq_refl).
Defined.

(** ** The ses5 command *)

Lemma gen_settings_dict_roles_wf (version : option pystr) (kw : kwargs)
    (h : store) (d : gmap string value) :
  _gen_settings_dict version kw = Ok (h, d) ->
  d !! "roles" = None \/
  exists refs, d !! "roles" = Some (VRoles refs) /\
    Forall (fun id => id < length h) refs.
Proof.
  intros (d0 & Hd0 & ->)%gen_settings_dict_inv.
  rewrite scalar_entries_lookup_roles. exact (roles_entry_wf kw h d0 Hd0).
Qed.

(** C9, as stated, fails when the roles key holds an empty list: the
    text ["[admin"] opens a group and never closes it, the parser returns
    the empty list, the key is emitted, and [ses5] raises [IndexError]
    where it takes the first node. *)
Lemma ses5_empty_role_list_raises :
  (exists h d,
     _gen_settings_dict (Some (str "ses5")) (set_roles (str "[admin") no_options)
       = Ok (h, d) /\ d !! "roles" = Some (VRoles [])) /\
  ses5 (set_roles (str "[admin") no_options) = Raise IndexError.
Proof.
  split.
  - destruct (gen_settings_dict_lookup_roles (Some (str "ses5"))
                (set_roles (str "[admin") no_options) [[str "admin"]]
                {["roles" := VRoles []]} eq_refl) as (d & Hd & Hr).
    exists [[str "admin"]], d. split; [exact Hd|]. rewrite Hr.
    apply lookup_insert_eq.
  - vm_compute. reflexivity.
Qed.

(** C9. After a derivation for the version [ses5]: without a roles key,
    [ses5] passes the configuration on unchanged; with a roles key whose
    list is not empty, [ses5] appends ["openattic"] to the list object of
    the first node, leaves every other list object and the dictionary as
    they are, and passes that on.  The roles entry is always a list of
    node lists. *)
Theorem ses5_appends_openattic (kw : kwargs) (h : store) (d : gmap string value) :
  _gen_settings_dict (Some (str "ses5")) kw = Ok (h, d) ->
  (d !! "roles" = None -> ses5 kw = Ok (h, d)) /\
  (forall id refs, d !! "roles" = Some (VRoles (id :: refs)) ->
   exists l h',
     h !! id = Some l /\ ses5 kw = Ok (h', d) /\
     h' !! id = Some (l ++ [str "openattic"]) /\
     (forall j, j <> id -> h' !! j = h !! j) /\
     head (roles_value h' (id :: refs)) = Some (l ++ [str "openattic"])) /\
  (forall v, d !! "roles" = Some v -> exists refs, v = VRoles refs).
Proof.
  intros Hg. split; [|split].
  - intros Hn. unfold ses5. rewrite Hg. simpl. rewrite Hn. reflexivity.
  - intros id refs Hr.
    destruct (gen_settings_dict_roles_wf _ _ _ _ Hg) as [Hn|(refs' & Hr' & Hwf)];
      [congruence|].
    assert (refs' = id :: refs) as -> by congruence.
    apply Forall_cons in Hwf as [Hid _].
    destruct (lookup_lt_is_Some_2 h id Hid) as [l Hl].
    exists l, (list_append id (str "openattic") h).
    assert (Hl' : list_append id (str "openattic") h !! id
                  = Some (l ++ [str "openattic"])).
    { unfold list_append. rewrite list_lookup_alter_eq, Hl. reflexivity. }
    repeat split.
    + exact Hl.
    + unfold ses5. rewrite Hg. simpl. rewrite Hr. reflexivity.
    + exact Hl'.
    + intros j Hj. unfold list_append. apply list_lookup_alter_ne. congruence.
    + simpl. rewrite Hl'. reflexivity.
  - intros v Hv.
    destruct (gen_settings_dict_roles_wf _ _ _ _ Hg) as [Hn|(refs' & Hr' & _)];
      [congruence|].
    exists refs'. congruence.
Qed.

Lemma ses5_appends_openattic_witness :
  (exists h d,
     ses5 (set_roles (str "[admin, mon],[storage]") no_options) = Ok (h, d) /\
     d !! "roles" = Some (VRoles [0; 1]) /\
     h !! 0 = Some [str "admin"; str "mon"; str "openattic"] /\
     h !! 1 = Some [str "storage"]) /\
  (exists d, ses5 no_options = Ok ([], d) /\ d !! "roles" = None).
Proof.
  split.
  - destruct (ses5_appends_openattic
                (set_roles (str "[admin, mon],[storage]") no_options)
                [[str "admin"; str "mon"]; [str "storage"]]
                (scalar_entries (Some (str "ses5"))
                   (set_roles (str "[admin, mon],[storage]") no_options)
                   {["roles" := VRoles [0; 1]]}) eq_refl) as (_ & Happ & _).
    assert (Hr : scalar_entries (Some (str "ses5"))
                   (set_roles (str "[admin, mon],[storage]") no_options)
                   {["roles" := VRoles [0; 1]]} !! "roles"
                 = Some (VRoles [0; 1])).
    { rewrite scalar_entries_lookup_roles. apply lookup_insert_eq. }
    destruct (Happ 0 [1] Hr) as (l & h' & Hl & Hs & Hl' & Hother & _).
    injection Hl as <-.
    eexists h', _. split; [exact Hs|]. split; [exact Hr|].
    split; [exact Hl'|]. rewrite Hother by discriminate. reflexivity.
  - eexists. split.
    + apply (proj1 (ses5_appends_openattic no_options []
               (scalar_entries (Some (str "ses5")) no_options ∅) eq_refl)).
      rewrite scalar_entries_lookup_roles. apply lookup_empty.
    + rewrite scalar_entries_lookup_roles. apply lookup_empty.
Defined.

(** ** Unterminated groups *)

Lemma parse_roles_drops_open_group (s : pystr) (pre rest : list pystr)
    (o : pystr) (st0 : parser_state) :
  split s COMMA = pre ++ o :: rest ->
  opens o = true ->
  Forall (fun r => closes r = false) (o :: rest) ->
  parse_loop parse_init pre = Ok st0 ->
  exists ext, _parse_roles s = Ok (heap st0 ++ ext, _roles st0) /\
    Forall (fun id => id < length (heap st0)) (_roles st0).
Proof.
  intros Hs Ho [Hc Hrest]%Forall_cons Hpre.
  unfold _parse_roles. rewrite Hs, parse_loop_strip, parse_loop_app, Hpre.
  simpl. unfold parse_loop. simpl.
  destruct (parse_step_open_unclosed st0 o Ho Hc) as (st1 & -> & He1). simpl.
  destruct (parse_loop_unclosed rest st0 st1 He1 Hrest)
    as (st2 & Hst2 & (ext & id & Hh & Hr & _)).
  unfold parse_loop in Hst2. rewrite Hst2. simpl. rewrite Hh, Hr.
  exists ext. split; [reflexivity|].
  apply (parse_loop_wf _ _ _ wf_init Hpre).
Qed.

Lemma split_opening_not_empty (s : pystr) (pre rest : list pystr) (o : pystr) :
  split s COMMA = pre ++ o :: rest -> opens o = true -> s <> [].
Proof.
  intros Hs Ho ->. simpl in Hs.
  destruct pre as [|p pre]; simpl in Hs.
  - injection Hs as <- _. discriminate Ho.
  - injection Hs as _ Hs. destruct pre; discriminate Hs.
Qed.

(** C1, as stated, fails: on ["[admin, mon"] the parser raises nothing
    and returns the empty role list, the derivation returns a
    configuration with it, and [ses6] goes on to [_create_command]. *)
Lemma parse_roles_unterminated_returns :
  parse (str "[admin, mon") = Ok [] /\
  exists h d,
    ses6 (set_roles (str "[admin, mon") no_options) = Ok (h, d) /\
    d !! "roles" = Some (VRoles []).
Proof.
  split; [reflexivity|].
  destruct (gen_settings_dict_lookup_roles (Some (str "ses6"))
              (set_roles (str "[admin, mon") no_options)
              [[str "admin"; str "mon"]] {["roles" := VRoles []]} eq_refl)
    as (d & Hd & Hr).
  exists [[str "admin"; str "mon"]], d. split; [exact Hd|].
  rewrite Hr. apply lookup_insert_eq.
Qed.

Lemma gen_settings_dict_unterminated (s : pystr) (pre rest : list pystr)
    (o : pystr) (st0 : parser_state) (kw : kwargs) (version : option pystr) :
  split s COMMA = pre ++ o :: rest ->
  opens o = true ->
  Forall (fun r => closes r = false) (o :: rest) ->
  parse_loop parse_init pre = Ok st0 ->
  single_node kw = false -> roles kw = Some s ->
  exists ext d,
    _gen_settings_dict version kw = Ok (heap st0 ++ ext, d) /\
    d !! "roles" = Some (VRoles (_roles st0)) /\
    Forall (fun id => id < length (heap st0)) (_roles st0).
Proof.
  intros Hs Ho Hc Hpre Hsn Hr.
  destruct (parse_roles_drops_open_group s pre rest o st0 Hs Ho Hc Hpre)
    as (ext & Hp & Hwf).
  pose proof (roles_entry_parsed kw s Hsn Hr
                (split_opening_not_empty s pre rest o Hs Ho)) as He.
  rewrite Hp in He. simpl in He.
  destruct (gen_settings_dict_lookup_roles version kw _ _ He) as (d & Hd & Hl).
  exists ext, d. split; [exact Hd|]. split; [|exact Hwf].
  rewrite Hl. apply lookup_insert_eq.
Qed.

Lemma roles_value_openattic (h ext : store) (id : nat) (refs : list nat) :
  Forall (fun j => j < length h) (id :: refs) ->
  roles_value (list_append id (str "openattic") (h ++ ext)) (id :: refs) =
  map (fun j => if decide (j = id)
                then default [] (h !! j) ++ [str "openattic"]
                else default [] (h !! j)) (id :: refs).
Proof.
  intros Hwf. unfold roles_value, list_append. apply map_ext_Forall.
  eapply Forall_impl; [exact Hwf|]. simpl. intros j Hj.
  destruct (decide (j = id)) as [->|Hne].
  - rewrite list_lookup_alter_eq, lookup_app_l by assumption.
    destruct (lookup_lt_is_Some_2 h id Hj) as [l ->]. reflexivity.
  - rewrite list_lookup_alter_ne, lookup_app_l by (assumption || congruence).
    reflexivity.
Qed.

(** C1. Let the fragments of the input be [pre], then a fragment [o]
    that opens a group, then [rest], and let no fragment from [o] on
    close a group.  The parser then returns what its loop had collected
    over [pre] (it raises only if the loop raises over [pre]): the roles
    of the unterminated group are dropped.  With single-node mode off,
    the derivation does not abort either, for any version tag: its roles
    entry is that role list.  [ses6], [nautilus], [ses7] and [octopus]
    reach [_create_command] with that role list; [ses5] reaches it, when
    the list is not empty, with ["openattic"] appended to the list object
    of the first node. *)
Theorem parse_roles_unterminated_group (s : pystr) (pre rest : list pystr)
    (o : pystr) :
  split s COMMA = pre ++ o :: rest ->
  opens o = true ->
  Forall (fun r => closes r = false) (o :: rest) ->
  parse s =
    (st0 ← parse_loop parse_init pre;
     Ok (roles_value (heap st0) (_roles st0))) /\
  (forall st0 kw, parse_loop parse_init pre = Ok st0 ->
     single_node kw = false -> roles kw = Some s ->
     (forall version,
        hands_over (_gen_settings_dict version kw)
          (roles_value (heap st0) (_roles st0))) /\
     hands_over (ses6 kw) (roles_value (heap st0) (_roles st0)) /\
     hands_over (nautilus kw) (roles_value (heap st0) (_roles st0)) /\
     (forall use_deepsea,
        hands_over (ses7 use_deepsea kw) (roles_value (heap st0) (_roles st0))) /\
     (forall use_deepsea,
        hands_over (octopus use_deepsea kw)
          (roles_value (heap st0) (_roles st0))) /\
     (forall id refs, _roles st0 = id :: refs ->
        hands_over (ses5 kw)
          (map (fun j => if decide (j = id)
                         then default [] (heap st0 !! j) ++ [str "openattic"]
                         else default [] (heap st0 !! j)) (id :: refs)))).
Proof.
  intros Hs Ho Hc. split.
  - destruct (parse_loop parse_init pre) as [st0|e] eqn:Hpre; simpl.
    + destruct (parse_roles_drops_open_group s pre rest o st0 Hs Ho Hc Hpre)
        as (ext & Hp & Hwf).
      unfold parse. rewrite Hp. simpl. f_equal.
      apply roles_value_app_l, Hwf.
    + unfold parse, _parse_roles.
      rewrite Hs, parse_loop_strip, parse_loop_app, Hpre. reflexivity.
  - intros st0 kw Hpre Hsn Hr.
    assert (Hgen : forall version,
              hands_over (_gen_settings_dict version kw)
                (roles_value (heap st0) (_roles st0))).
    { intros version.
      destruct (gen_settings_dict_unterminated s pre rest o st0 kw version
                  Hs Ho Hc Hpre Hsn Hr) as (ext & d & Hd & Hl & Hwf).
      exists (heap st0 ++ ext), d, (_roles st0).
      split; [exact Hd|]. split; [exact Hl|]. apply roles_value_app_l, Hwf. }
    split; [exact Hgen|]. split; [apply Hgen|]. split; [apply Hgen|].
    split; [|split].
    + intros use_deepsea.
      destruct (Hgen (Some (str "ses7"))) as (h & d & refs & Hd & Hl & Hv).
      unfold ses7. rewrite Hd. simpl. eexists h, _, refs.
      split; [reflexivity|]. split; [|exact Hv].
      destruct use_deepsea; [|exact Hl].
      rewrite lookup_insert_ne by discriminate. exact Hl.
    + intros use_deepsea.
      destruct (Hgen (Some (str "octopus"))) as (h & d & refs & Hd & Hl & Hv).
      unfold octopus. rewrite Hd. simpl. eexists h, _, refs.
      split; [reflexivity|]. split; [|exact Hv].
      rewrite lookup_insert_ne by discriminate. exact Hl.
    + intros id refs Hrefs.
      destruct (gen_settings_dict_unterminated s pre rest o st0 kw
                  (Some (str "ses5")) Hs Ho Hc Hpre Hsn Hr)
        as (ext & d & Hd & Hl & Hwf).
      rewrite Hrefs in Hl, Hwf.
      exists (list_append id (str "openattic") (heap st0 ++ ext)), d,
        (id :: refs).
      split; [|split; [exact Hl|]].
      * unfold ses5. rewrite Hd. simpl. rewrite Hl. reflexivity.
      * apply roles_value_openattic, Hwf.
Qed.

Lemma parse_roles_unterminated_group_witness :
  parse (str "[admin, mon],[storage, mgr") = Ok [[str "admin"; str "mon"]] /\
  hands_over
    (ses6 (set_roles (str "[admin, mon],[storage, mgr") no_options))
    [[str "admin"; str "mon"]] /\
  hands_over
    (octopus false (set_roles (str "[admin, mon],[storage, mgr") no_options))
    [[str "admin"; str "mon"]] /\
  hands_over
    (ses5 (set_roles (str "[admin, mon],[storage, mgr") no_options))
    [[str "admin"; str "mon"; str "openattic"]].
Proof.
  destruct (parse_roles_unterminated_group (str "[admin, mon],[storage, mgr")
              [str "[admin"; str " mon]"] [str " mgr"] (str "[storage")
              eq_refl eq_refl) as [Hp Hd].
  - repeat constructor.
  - destruct (Hd (PState [[str "admin"; str "mon"]] [0] (Some 0))
                (set_roles (str "[admin, mon],[storage, mgr") no_options)
                eq_refl eq_refl eq_refl)
      as (_ & Hses6 & _ & _ & Hoct & Hses5).
    split; [exact Hp|]. split; [exact Hses6|]. split; [exact (Hoct false)|].
    exact (Hses5 0 [] eq_refl).
Defined.

(** ** Cluster status *)

Ltac streq_cases :=
  repeat match goal with
    | |- context [streq ?a ?b] =>
        is_var a; destruct (streq_spec a b); subst; simpl
    end.

Lemma status_step_comm (s a b : pystr) :
  status_step (status_step s a) b = status_step (status_step s b) a.
Proof. unfold status_step. streq_cases; try reflexivity; congruence. Qed.

Lemma fold_left_comm_perm {A B} (f : B -> A -> B) (l l' : list A) :
  (forall s a b, f (f s a) b = f (f s b) a) ->
  l ≡ₚ l' -> forall s, fold_left f l s = fold_left f l' s.
Proof.
  intros Hf Hp. induction Hp as [|x l l' _ IH|x y l|l l' l'' _ IH1 _ IH2];
    intros s; simpl.
  - reflexivity.
  - apply IH.
  - rewrite Hf. reflexivity.
  - rewrite IH1. apply IH2.
Qed.

Lemma getitem_perm {V} (d d' : list (pystr * V)) (k : pystr) :
  NoDup (map fst d) -> d ≡ₚ d' -> getitem d k = getitem d' k.
Proof.
  intros Hnd Hp. induction Hp as [|[k1 v1] l l' Hp IH|[k1 v1] [k2 v2] l
                                  |l l' l'' Hp1 IH1 Hp2 IH2]; simpl.
  - reflexivity.
  - apply NoDup_cons in Hnd as [_ Hnd]. rewrite (IH Hnd). reflexivity.
  - simpl in Hnd. apply NoDup_cons in Hnd as [Hne _].
    destruct (streq_spec k2 k) as [->|]; [|reflexivity].
    destruct (streq_spec k1 k) as [->|]; [|reflexivity].
    exfalso. apply Hne. left.
  - rewrite (IH1 Hnd). apply IH2.
    rewrite <- (Permutation_map fst Hp1). exact Hnd.
Qed.

Lemma getitem_elem_of {V} (d : list (pystr * V)) (k : pystr) :
  k ∈ map fst d -> exists v, getitem d k = Ok v.
Proof.
  induction d as [|[k' v'] d IH]; simpl; intros Hk.
  - apply elem_of_nil in Hk. contradiction.
  - destruct (streq_spec k' k) as [->|Hne]; [eauto|].
    apply elem_of_cons in Hk as [->|Hk]; [contradiction|]. apply IH, Hk.
Qed.

(** C3. For a mapping with distinct node names among which is
    ["admin"], [_status] returns a status, and it returns the same status
    for every other iteration order of the mapping. *)
Theorem status_order_independent (nodes nodes' : list (pystr * pystr)) :
  NoDup (map fst nodes) ->
  str "admin" ∈ map fst nodes ->
  nodes ≡ₚ nodes' ->
  exists s, _status nodes = Ok s /\ _status nodes' = Ok s.
Proof.
  intros Hnd Hadmin Hp. destruct (getitem_elem_of nodes _ Hadmin) as [s0 Hs0].
  exists (fold_left status_step (map snd nodes) s0). unfold _status.
  rewrite <- (getitem_perm nodes nodes' _ Hnd Hp), Hs0. simpl.
  split; [reflexivity|]. f_equal. symmetry.
  apply fold_left_comm_perm; [apply status_step_comm|].
  apply Permutation_map, Hp.
Qed.

Lemma status_order_independent_witness :
  _status [(str "admin", str "running"); (str "node1", str "stopped");
           (str "node2", str "running")] = Ok (str "partially running") /\
  _status [(str "node2", str "running"); (str "admin", str "running");
           (str "node1", str "stopped")] = Ok (str "partially running").
Proof.
  destruct (status_order_independent
              [(str "admin", str "running"); (str "node1", str "stopped");
               (str "node2", str "running")]
              [(str "node2", str "running"); (str "admin", str "running");
               (str "node1", str "stopped")]) as (s & Hs & Hs').
  - repeat (apply NoDup_cons; split;
            [rewrite ?elem_of_cons, elem_of_nil; intros H;
             repeat (destruct H as [H|H]; [discriminate H|]); exact H|]).
    apply NoDup_nil. exact I.
  - left.
  - exact (perm_trans (perm_skip _ (perm_swap _ _ [])) (perm_swap _ _ _)).
  - assert (Hv : Ok (str "partially running") = Ok s) by exact Hs.
    injection Hv as <-. split; [reflexivity|exact Hs'].
Defined.

(** ** Rendering and parsing back *)

Lemma token_ok_plain (t : pystr) :
  token_ok t = true -> strip t = t -> t <> [] /\ plain t.
Proof.
  unfold token_ok, plain. intros [Ht Hall]%andb_true_iff Hs. split.
  - destruct t; [discriminate Ht|discriminate].
  - rewrite forallb_forall in Hall.
    assert (Hc : forall c, c ∈ t -> c <> 91%N /\ c <> 93%N /\ c <> 44%N).
    { intros c Hin%list_elem_of_In. specialize (Hall c Hin).
      apply negb_true_iff in Hall.
      apply orb_false_iff in Hall as [[H1 H2]%orb_false_iff H3].
      apply N.eqb_neq in H1, H2, H3. auto. }
    repeat split; try (intros Hin; destruct (Hc _ Hin) as (? & ? & ?); congruence).
    + apply (proj1 (strip_fixed_trimmed t Hs)).
    + apply (proj2 (strip_fixed_trimmed t Hs)).
Qed.

Lemma plain_not_startswith (t : pystr) :
  plain t -> startswith t (str "[") = false.
Proof.
  intros (H & _). destruct (startswith t (str "[")) eqn:Hs; [|reflexivity].
  apply (startswith_char t 91%N), head_Some_elem_of in Hs. contradiction.
Qed.

Lemma plain_not_endswith (t : pystr) :
  plain t -> endswith t (str "]") = false.
Proof.
  intros (_ & H & _). destruct (endswith t (str "]")) eqn:Hs; [|reflexivity].
  apply (endswith_char t 93%N), last_Some_elem_of in Hs. contradiction.
Qed.

(** The four shapes of fragment of a rendered role list. *)
Lemma frag_single (t : pystr) :
  plain t ->
  let r := str "[" ++ t ++ str "]" in
  strip r = r /\ startswith r (str "[") = true /\
  endswith r (str "]") = true /\ drop_first (drop_last r) = t.
Proof.
  intros Hp r. subst r. change (str "[") with [91%N]. change (str "]") with [93%N].
  repeat split.
  - apply strip_id. split; intros c.
    + simpl. intros [= <-]. reflexivity.
    + change ([91%N] ++ t ++ [93%N]) with ((91%N :: t) ++ [93%N]).
      rewrite last_snoc. intros [= <-]. reflexivity.
  - apply endswith_char. change ([91%N] ++ t ++ [93%N]) with ((91%N :: t) ++ [93%N]).
    apply last_snoc.
  - unfold drop_last, drop_first.
    change ([91%N] ++ t ++ [93%N]) with ((91%N :: t) ++ [93%N]).
    rewrite take_app_length' by (rewrite length_app; simpl; lia). reflexivity.
Qed.

Lemma frag_open (t : pystr) :
  plain t ->
  let r := str "[" ++ t in
  strip r = r /\ startswith r (str "[") = true /\
  endswith r (str "]") = false /\ drop_first r = t.
Proof.
  intros Hp r. subst r. change (str "[") with [91%N]. change (str "]") with [93%N].
  destruct Hp as (_ & H93 & _ & _ & Hl). repeat split.
  - apply strip_id. split; intros c.
    + simpl. intros [= <-]. reflexivity.
    + simpl. rewrite last_cons. destruct (last t) as [y|] eqn:Hy.
      * intros [= <-]. apply Hl. reflexivity.
      * intros [= <-]. reflexivity.
  - destruct (endswith ([91%N] ++ t) [93%N]) eqn:He; [|reflexivity].
    apply endswith_char in He. simpl in He. rewrite last_cons in He.
    destruct (last t) as [y|] eqn:Hy; [|discriminate He].
    injection He as ->. apply last_Some_elem_of in Hy. contradiction.
Qed.

Lemma frag_inner (t : pystr) :
  plain t ->
  let r := str " " ++ t in
  strip r = t /\ startswith t (str "[") = false /\ endswith t (str "]") = false.
Proof.
  intros Hp r. subst r. repeat split.
  - change (strip (str " " ++ t)) with (strip t). apply strip_id, Hp.
  - apply plain_not_startswith, Hp.
  - apply plain_not_endswith, Hp.
Qed.

Lemma frag_close (t : pystr) :
  plain t ->
  let r := str " " ++ t ++ str "]" in
  strip r = t ++ str "]" /\ startswith (t ++ str "]") (str "[") = false /\
  endswith (t ++ str "]") (str "]") = true /\ drop_last (t ++ str "]") = t.
Proof.
  intros Hp r. subst r. change (str "[") with [91%N]. change (str "]") with [93%N].
  destruct Hp as (H91 & _ & _ & Hh & _). repeat split.
  - change (strip (str " " ++ t ++ [93%N])) with (strip (t ++ [93%N])).
    apply strip_id. split; intros c.
    + rewrite head_app. destruct (head t) as [y|] eqn:Hy.
      * intros [= <-]. apply Hh. reflexivity.
      * simpl. intros [= <-]. reflexivity.
    + rewrite last_snoc. intros [= <-]. reflexivity.
  - destruct (startswith (t ++ [93%N]) [91%N]) eqn:Hs; [|reflexivity].
    apply startswith_char in Hs. rewrite head_app in Hs.
    destruct (head t) as [y|] eqn:Hy; [|discriminate Hs].
    injection Hs as ->. apply head_Some_elem_of in Hy. contradiction.
  - apply endswith_char, last_snoc.
  - unfold drop_last. apply take_app_length'. rewrite length_app. simpl. lia.
Qed.

Lemma split_cons_other (x c : N) (s : pystr) :
  x <> c -> exists f fs, split s c = f :: fs /\ split (x :: s) c = (x :: f) :: fs.
Proof.
  intros Hx. simpl. destruct (N.eqb_spec x c); [contradiction|].
  pose proof (split_nonempty s c). destruct (split s c) as [|f fs]; [contradiction|].
  eauto.
Qed.

Lemma split_join_tokens (ts : list pystr) (t : pystr) :
  Forall plain (t :: ts) ->
  split (join (str ", ") (t :: ts) ++ str "]") COMMA =
  match ts with
  | [] => [t ++ str "]"]
  | t' :: ts' => t :: inner_frags t' ts'
  end.
Proof.
  revert t. induction ts as [|t' ts IH]; intros t [Ht Hts]%Forall_cons.
  - simpl. change (str "]") with [93%N]. apply split_no_sep.
    destruct Ht as (_ & _ & H44 & _).
    rewrite elem_of_app, list_elem_of_singleton. intros [?|?]; [contradiction|].
    discriminate.
  - change (join (str ", ") (t :: t' :: ts) ++ str "]")
      with ((t ++ COMMA :: 32%N :: join (str ", ") (t' :: ts)) ++ str "]").
    rewrite <- app_assoc, <- !app_comm_cons.
    rewrite split_app_sep, split_no_sep by apply Ht.
    destruct (split_cons_other 32%N COMMA (join (str ", ") (t' :: ts) ++ str "]"))
      as (f & fs & Hf & ->); [discriminate|].
    rewrite (IH t' Hts) in Hf. simpl. f_equal.
    destruct ts as [|t'' ts]; injection Hf as <- <-; reflexivity.
Qed.

Lemma split_render_node (n : list pystr) :
  Forall plain n -> split (render_node n) COMMA = node_frags n.
Proof.
  intros Hn. destruct n as [|t ts]; [reflexivity|]. unfold render_node.
  destruct (split_cons_other 91%N COMMA (join (str ", ") (t :: ts) ++ str "]"))
    as (f & fs & Hf & Hs); [discriminate|].
  change (str "[" ++ join (str ", ") (t :: ts) ++ str "]")
    with (91%N :: (join (str ", ") (t :: ts) ++ str "]")).
  rewrite Hs. rewrite (split_join_tokens ts t Hn) in Hf.
  destruct ts as [|t' ts]; injection Hf as <- <-; reflexivity.
Qed.

Lemma split_join_sep (c : N) (x : pystr) (xs : list pystr) :
  split (join [c] (x :: xs)) c = concat (map (fun y => split y c) (x :: xs)).
Proof.
  revert x; induction xs as [|y xs IH]; intros x.
  - simpl. rewrite app_nil_r. reflexivity.
  - change (join [c] (x :: y :: xs)) with (x ++ c :: join [c] (y :: xs)).
    rewrite split_app_sep, IH. reflexivity.
Qed.

Lemma split_render (n : list pystr) (rl : list (list pystr)) :
  Forall (Forall plain) (n :: rl) ->
  split (render (n :: rl)) COMMA = concat (map node_frags (n :: rl)).
Proof.
  intros Hrl. unfold render. change (str ",") with [COMMA].
  change (map render_node (n :: rl)) with (render_node n :: map render_node rl).
  rewrite split_join_sep. f_equal.
  change (render_node n :: map render_node rl) with (map render_node (n :: rl)).
  rewrite map_map. apply map_ext_Forall.
  eapply Forall_impl; [exact Hrl|]. intros m Hm. apply split_render_node, Hm.
Qed.

Lemma list_append_last (h0 : store) (l : list pystr) (x : pystr) :
  list_append (length h0) x (h0 ++ [l]) = h0 ++ [l ++ [x]].
Proof.
  unfold list_append. replace (length h0) with (length h0 + 0) by lia.
  rewrite alter_app_r. reflexivity.
Qed.

Lemma parse_step_single (st : parser_state) (t : pystr) :
  plain t ->
  parse_step st (str "[" ++ t ++ str "]") =
  Ok (PState (heap st ++ [[t]]) (_roles st ++ [length (heap st)])
        (Some (length (heap st)))).
Proof.
  intros Hp. pose proof (frag_single t Hp) as H. cbv zeta in H.
  destruct H as (Hs & Ho & Hc & Hd).
  unfold parse_step. rewrite Hs, Ho, Hc, Hd.
  unfold node_append, new_node, roles_append. simpl.
  rewrite (list_append_last (heap st) [] t). reflexivity.
Qed.

Lemma parse_step_open (st : parser_state) (t : pystr) :
  plain t ->
  parse_step st (str "[" ++ t) =
  Ok (PState (heap st ++ [[t]]) (_roles st) (Some (length (heap st)))).
Proof.
  intros Hp. pose proof (frag_open t Hp) as H. cbv zeta in H.
  destruct H as (Hs & Ho & Hc & Hd).
  unfold parse_step. rewrite Hs, Ho, Hc, Hd.
  unfold node_append, new_node. simpl.
  rewrite (list_append_last (heap st) [] t). reflexivity.
Qed.

Lemma parse_step_inner (st : parser_state) (h0 : store) (l : list pystr)
    (t : pystr) :
  plain t -> heap st = h0 ++ [l] -> _node st = Some (length h0) ->
  parse_step st (str " " ++ t) =
  Ok (PState (h0 ++ [l ++ [t]]) (_roles st) (Some (length h0))).
Proof.
  intros Hp Hh Hn. pose proof (frag_inner t Hp) as H. cbv zeta in H.
  destruct H as (Hs & Ho & Hc).
  unfold parse_step. rewrite Hs, Ho, Hc.
  unfold node_append. rewrite Hn, Hh. simpl.
  rewrite list_append_last. reflexivity.
Qed.

Lemma parse_step_close (st : parser_state) (h0 : store) (l : list pystr)
    (t : pystr) :
  plain t -> heap st = h0 ++ [l] -> _node st = Some (length h0) ->
  parse_step st (str " " ++ t ++ str "]") =
  Ok (PState (h0 ++ [l ++ [t]]) (_roles st ++ [length h0]) (Some (length h0))).
Proof.
  intros Hp Hh Hn. pose proof (frag_close t Hp) as H. cbv zeta in H.
  destruct H as (Hs & Ho & Hc & Hd).
  unfold parse_step. rewrite Hs, Ho, Hc, Hd.
  unfold node_append, roles_append. rewrite Hn, Hh. simpl.
  rewrite list_append_last. reflexivity.
Qed.

Lemma parse_loop_inner (ts : list pystr) (t : pystr) (st : parser_state)
    (h0 : store) (l : list pystr) :
  Forall plain (t :: ts) -> heap st = h0 ++ [l] -> _node st = Some (length h0) ->
  parse_loop st (inner_frags t ts) =
  Ok (PState (h0 ++ [l ++ t :: ts]) (_roles st ++ [length h0])
        (Some (length h0))).
Proof.
  revert t st l. induction ts as [|t' ts IH]; intros t st l [Ht Hts]%Forall_cons Hh Hn.
  - change (inner_frags t []) with [str " " ++ t ++ str "]"].
    rewrite parse_loop_cons, (parse_step_close st h0 l t Ht Hh Hn), bind_Ok.
    apply parse_loop_nil.
  - change (inner_frags t (t' :: ts)) with ((str " " ++ t) :: inner_frags t' ts).
    rewrite parse_loop_cons, (parse_step_inner st h0 l t Ht Hh Hn), bind_Ok.
    rewrite (IH t' (PState (h0 ++ [l ++ [t]]) (_roles st) (Some (length h0)))
               (l ++ [t]) Hts eq_refl eq_refl).
    cbn [_roles]. rewrite <- app_assoc. reflexivity.
Qed.

Lemma parse_loop_node (st : parser_state) (n : list pystr) :
  n <> [] -> Forall plain n ->
  parse_loop st (node_frags n) =
  Ok (PState (heap st ++ [n]) (_roles st ++ [length (heap st)])
        (Some (length (heap st)))).
Proof.
  intros Hne Hn. destruct n as [|t [|t' ts]]; [contradiction| |].
  - apply Forall_cons in Hn as [Ht _].
    change (node_frags [t]) with [str "[" ++ t ++ str "]"].
    rewrite parse_loop_cons, (parse_step_single st t Ht), bind_Ok.
    apply parse_loop_nil.
  - apply Forall_cons in Hn as [Ht Hts].
    change (node_frags (t :: t' :: ts)) with ((str "[" ++ t) :: inner_frags t' ts).
    rewrite parse_loop_cons, (parse_step_open st t Ht), bind_Ok.
    rewrite (parse_loop_inner ts t'
               (PState (heap st ++ [[t]]) (_roles st) (Some (length (heap st))))
               (heap st) [t] Hts eq_refl eq_refl).
    reflexivity.
Qed.

Lemma parse_loop_nodes (rl : list (list pystr)) (st : parser_state) :
  Forall (fun n => n <> [] /\ Forall plain n) rl ->
  exists nd,
    parse_loop st (concat (map node_frags rl)) =
    Ok (PState (heap st ++ rl) (_roles st ++ seq (length (heap st)) (length rl)) nd).
Proof.
  revert st. induction rl as [|n rl IH]; intros st Hrl.
  - exists (_node st). destruct st. simpl. rewrite !app_nil_r. reflexivity.
  - apply Forall_cons in Hrl as [[Hne Hn] Hrl]. simpl.
    rewrite parse_loop_app, (parse_loop_node st n Hne Hn), bind_Ok.
    destruct (IH (PState (heap st ++ [n]) (_roles st ++ [length (heap st)])
                    (Some (length (heap st)))) Hrl) as [nd ->].
    exists nd. simpl. rewrite <- !app_assoc, length_app. simpl.
    replace (length (heap st) + 1) with (S (length (heap st))) by lia.
    reflexivity.
Qed.

Lemma roles_value_seq (rl : list (list pystr)) :
  roles_value rl (seq 0 (length rl)) = rl.
Proof.
  unfold roles_value. apply list_eq. intros i.
  change (map ?f ?l) with (f <$> l). rewrite list_lookup_fmap.
  destruct (decide (i < length rl)) as [Hi|Hi].
  - rewrite lookup_seq_lt by assumption. simpl.
    destruct (lookup_lt_is_Some_2 rl i Hi) as [x ->]. reflexivity.
  - rewrite lookup_seq_ge, lookup_ge_None_2 by lia. reflexivity.
Qed.

(** C8, as stated, fails: a token that ends with white space is
    rendered and parsed back without that space.  Outside the role
    lists of the data model, the empty list is rendered as the empty
    string, on which the parser raises, and an empty node comes back as
    a node with one empty token. *)
Lemma parse_render_token_with_space :
  Forall (Forall (fun t => token_ok t = true)) [[str "a "; str "b"]] /\
  parse (render [[str "a "; str "b"]]) = Ok [[str "a"; str "b"]] /\
  parse (render [[str "a "; str "b"]]) <> Ok [[str "a "; str "b"]] /\
  parse (render []) = Raise AttributeError /\
  parse (render [[]]) = Ok [[empty_str]].
Proof.
  split; [repeat constructor|]. split; [reflexivity|].
  split; [discriminate|]. split; reflexivity.
Qed.

(** C8. For a role list that is not empty, whose nodes are not empty and
    whose tokens are not empty, hold no bracket and no comma and have no
    white space at either end, parsing its rendering returns the role
    list. *)
Theorem parse_render_roundtrip (rl : list (list pystr)) :
  rl <> [] ->
  Forall (fun n => n <> [] /\
            Forall (fun t => token_ok t = true /\ strip t = t) n) rl ->
  parse (render rl) = Ok rl.
Proof.
  intros Hne Hrl.
  assert (Hp : Forall (fun n => n <> [] /\ Forall plain n) rl).
  { eapply Forall_impl; [exact Hrl|]. simpl. intros n [Hn Hts]. split; [exact Hn|].
    eapply Forall_impl; [exact Hts|]. simpl. intros t [Ht Hs].
    apply (token_ok_plain t Ht Hs). }
  destruct rl as [|n rl]; [contradiction|].
  unfold parse, _parse_roles. rewrite parse_loop_strip, split_render.
  - destruct (parse_loop_nodes (n :: rl) parse_init Hp) as [nd ->]. simpl.
    f_equal. apply (roles_value_seq (n :: rl)).
  - eapply Forall_impl; [exact Hp|]. simpl. intros m [_ Hm]. exact Hm.
Qed.

Lemma parse_render_roundtrip_witness :
  parse (render [[str "admin"; str "mon"; str "mgr"]; [str "storage"]]) =
  Ok [[str "admin"; str "mon"; str "mgr"]; [str "storage"]].
Proof.
  apply (parse_render_roundtrip
           [[str "admin"; str "mon"; str "mgr"]; [str "storage"]]).
  - discriminate.
  - repeat constructor; discriminate.
Defined.

(** * Further properties of the source *)

(** ** When the parser returns *)

Lemma parse_step_node_kept (st : parser_state) (r : pystr) :
  (is_Some (_node st) \/ opens r = true) ->
  exists st', parse_step st r = Ok st' /\ is_Some (_node st').
Proof.
  unfold opens, parse_step, node_append, new_node, roles_append.
  intros [[id Hid]| ->].
  - rewrite Hid. destruct (startswith _ _), (endswith _ _); simpl;
      eexists; (split; [reflexivity|]); simpl; eauto.
  - destruct (endswith _ _); simpl; eexists; (split; [reflexivity|]);
      simpl; eauto.
Qed.

Lemma parse_loop_node_kept (l : list pystr) (st : parser_state) :
  is_Some (_node st) ->
  exists st', parse_loop st l = Ok st' /\ is_Some (_node st').
Proof.
  revert st; induction l as [|r l IH]; intros st Hn.
  - exists st. split; [reflexivity|assumption].
  - destruct (parse_step_node_kept st r (or_introl Hn)) as (st1 & Hst1 & Hn1).
    rewrite parse_loop_cons, Hst1, bind_Ok. apply IH, Hn1.
Qed.

Lemma parse_step_raise (st : parser_state) (r : pystr) (e : exn) :
  parse_step st r = Raise e -> e = AttributeError.
Proof.
  unfold parse_step, node_append, new_node.
  destruct (startswith _ _), (endswith _ _); simpl;
    try discriminate; destruct (_node st); simpl; try discriminate;
    intros [= <-]; reflexivity.
Qed.

Lemma parse_loop_raise (l : list pystr) (st : parser_state) (e : exn) :
  parse_loop st l = Raise e -> e = AttributeError.
Proof.
  revert st; induction l as [|r l IH]; intros st; [discriminate|].
  rewrite parse_loop_cons. destruct (parse_step st r) as [st1|e1] eqn:Hs; simpl.
  - apply IH.
  - intros [= <-]. apply (parse_step_raise _ _ _ Hs).
Qed.

(** X1. The parser returns a role list exactly when the first
    comma-separated fragment, once stripped, starts with an opening
    bracket; whatever follows, it then raises nothing.  The only
    exception it ever raises is [AttributeError]. *)
Theorem parse_roles_returns_iff (s f : pystr) (fs : list pystr) :
  split s COMMA = f :: fs ->
  ((exists h refs, _parse_roles s = Ok (h, refs)) <-> opens f = true) /\
  (forall e, _parse_roles s = Raise e -> e = AttributeError).
Proof.
  intros Hs. unfold _parse_roles. rewrite Hs, parse_loop_strip. split; [split|].
  - intros (h & refs & Hp). destruct (opens f) eqn:Ho; [reflexivity|].
    rewrite parse_loop_cons, (parse_step_no_node parse_init f eq_refl Ho) in Hp.
    discriminate Hp.
  - intros Ho.
    destruct (parse_step_node_kept parse_init f (or_intror Ho))
      as (st1 & Hst1 & Hn1).
    destruct (parse_loop_node_kept fs st1 Hn1) as (st2 & Hst2 & _).
    rewrite parse_loop_cons, Hst1, bind_Ok, Hst2. simpl. eauto.
  - intros e He. destruct (parse_loop parse_init (f :: fs)) as [st|e'] eqn:Hl;
      simpl in He; [discriminate|].
    injection He as <-. apply (parse_loop_raise _ _ _ Hl).
Qed.

Lemma parse_roles_returns_iff_witness :
  (exists h refs, _parse_roles (str "[admin, mon], x") = Ok (h, refs)) /\
  ~ (exists h refs, _parse_roles (str "admin, [mon]") = Ok (h, refs)).
Proof.
  split.
  - apply (proj1 (parse_roles_returns_iff (str "[admin, mon], x")
             (str "[admin") [str " mon]"; str " x"] eq_refl)). reflexivity.
  - intros H.
    apply (proj1 (parse_roles_returns_iff (str "admin, [mon]")
             (str "admin") [str " [mon]"] eq_refl)) in H.
    discriminate H.
Defined.

(** ** What the parser returns *)

Lemma closes_strip (r : pystr) : closes (strip r) = closes r.
Proof. unfold closes. rewrite strip_idemp. reflexivity. Qed.

Lemma parse_step_roles_length (st st' : parser_state) (r : pystr) :
  parse_step st r = Ok st' ->
  length (_roles st') = length (_roles st) + (if closes r then 1 else 0).
Proof.
  unfold closes, parse_step, node_append, new_node, roles_append.
  destruct (startswith _ _), (endswith _ _); simpl;
    try (destruct (_node st); simpl; [|discriminate]);
    intros [= <-]; simpl; rewrite ?length_app; simpl; lia.
Qed.

Lemma parse_loop_roles_length (l : list pystr) (st st' : parser_state) :
  parse_loop st l = Ok st' ->
  length (_roles st') = length (_roles st) + count_closing l.
Proof.
  revert st; induction l as [|r l IH]; intros st.
  - intros [= <-]. unfold count_closing. simpl. lia.
  - rewrite parse_loop_cons.
    destruct (parse_step st r) as [st1|e] eqn:Hs; simpl; [|discriminate].
    intros Hl. rewrite (IH _ Hl), (parse_step_roles_length _ _ _ Hs).
    unfold count_closing. simpl. destruct (closes r); simpl; lia.
Qed.

Lemma parse_roles_loop (s : pystr) (h : store) (refs : list nat) :
  _parse_roles s = Ok (h, refs) ->
  exists st, parse_loop parse_init (split s COMMA) = Ok st /\
    heap st = h /\ _roles st = refs.
Proof.
  unfold _parse_roles. rewrite parse_loop_strip.
  destruct (parse_loop parse_init _) as [st|e]; simpl; [|discriminate].
  intros [= <- <-]. eauto.
Qed.

(** X2. A returned role list has as many nodes as the input has
    fragments that, once stripped, end with a closing bracket. *)
Theorem parse_roles_node_count (s : pystr) (h : store) (refs : list nat) :
  _parse_roles s = Ok (h, refs) ->
  length (roles_value h refs) = count_closing (split s COMMA).
Proof.
  intros (st & Hl & _ & <-)%parse_roles_loop.
  unfold roles_value. rewrite length_map.
  apply (parse_loop_roles_length _ _ _ Hl).
Qed.

Lemma parse_roles_node_count_witness :
  _parse_roles (str "[a],b],[c, d")
    = Ok ([[str "a"; str "b"]; [str "c"; str "d"]], [0; 0]) /\
  length (roles_value [[str "a"; str "b"]; [str "c"; str "d"]] [0; 0]) = 2.
Proof.
  split; [reflexivity|].
  exact (parse_roles_node_count (str "[a],b],[c, d") _ _ eq_refl).
Defined.

Lemma split_fragments_no_sep (s : pystr) (c : N) :
  Forall (fun f => c ∉ f) (split s c).
Proof.
  induction s as [|x s IH]; simpl.
  - repeat constructor. apply not_elem_of_nil.
  - destruct (N.eqb_spec x c) as [->|Hne].
    + constructor; [apply not_elem_of_nil|exact IH].
    + destruct (split s c) as [|f fs]; [repeat constructor|].
      * rewrite list_elem_of_singleton. congruence.
      * apply Forall_cons in IH as [Hf Hfs]. constructor; [|exact Hfs].
        rewrite elem_of_cons. intros [?|?]; [congruence|contradiction].
Qed.

Lemma elem_of_lstrip (s : pystr) (c : N) : c ∈ lstrip s -> c ∈ s.
Proof.
  destruct (lstrip_suffix s) as [k Hk]. intros Hc. rewrite Hk.
  apply elem_of_app. right. exact Hc.
Qed.

Lemma elem_of_strip (s : pystr) (c : N) : c ∈ strip s -> c ∈ s.
Proof.
  unfold strip. intros Hc. apply elem_of_lstrip.
  destruct (rstrip_prefix (lstrip s)) as [k Hk]. rewrite Hk.
  apply elem_of_app. left. exact Hc.
Qed.

Lemma elem_of_drop_first (s : pystr) (c : N) : c ∈ drop_first s -> c ∈ s.
Proof.
  unfold drop_first. intros Hc. rewrite <- (take_drop 1 s).
  apply elem_of_app. right. exact Hc.
Qed.

Lemma elem_of_drop_last (s : pystr) (c : N) : c ∈ drop_last s -> c ∈ s.
Proof.
  unfold drop_last. intros Hc. rewrite <- (take_drop (length s - 1) s).
  apply elem_of_app. left. exact Hc.
Qed.

Lemma store_ok_append (h : store) (id : nat) (x : pystr) :
  store_ok h -> COMMA ∉ x -> store_ok (list_append id x h).
Proof.
  unfold store_ok, list_append. intros Hh Hx.
  apply Forall_lookup. intros i l Hl.
  destruct (decide (id = i)) as [->|Hne].
  - rewrite list_lookup_alter_eq in Hl.
    destruct (h !! i) as [l0|] eqn:Hl0; [|discriminate].
    injection Hl as <-. destruct (Forall_lookup_1 _ _ _ _ Hh Hl0) as [_ Hts].
    split; [destruct l0; discriminate|].
    apply Forall_app. split; [exact Hts|]. repeat constructor. exact Hx.
  - rewrite list_lookup_alter_ne in Hl by assumption.
    exact (Forall_lookup_1 _ _ _ _ Hh Hl).
Qed.

Lemma store_ok_new (h : store) (x : pystr) :
  store_ok h -> COMMA ∉ x -> store_ok (list_append (length h) x (h ++ [[]])).
Proof.
  intros Hh Hx. rewrite (list_append_last h [] x). unfold store_ok.
  apply Forall_app. split; [exact Hh|]. repeat constructor; [discriminate|exact Hx].
Qed.

Lemma parse_step_store_ok (st st' : parser_state) (r : pystr) :
  store_ok (heap st) -> COMMA ∉ r -> parse_step st r = Ok st' ->
  store_ok (heap st').
Proof.
  intros Hh Hr. unfold parse_step, node_append, new_node, roles_append.
  assert (Hs : COMMA ∉ strip r) by (intros H%elem_of_strip; contradiction).
  assert (Hf : COMMA ∉ drop_first (strip r))
    by (intros H%elem_of_drop_first; contradiction).
  assert (Hl : COMMA ∉ drop_last (strip r))
    by (intros H%elem_of_drop_last; contradiction).
  assert (Hfl : COMMA ∉ drop_first (drop_last (strip r)))
    by (intros H%elem_of_drop_first; contradiction).
  destruct (startswith _ _), (endswith _ _); simpl;
    try (destruct (_node st); simpl; [|discriminate]);
    intros [= <-]; simpl;
    first [apply store_ok_new; assumption | apply store_ok_append; assumption].
Qed.

Lemma parse_loop_store_ok (l : list pystr) (st st' : parser_state) :
  store_ok (heap st) -> Forall (fun r => COMMA ∉ r) l ->
  parse_loop st l = Ok st' -> store_ok (heap st').
Proof.
  revert st; induction l as [|r l IH]; intros st Hh Hl.
  - intros [= <-]. exact Hh.
  - apply Forall_cons in Hl as [Hr Hl]. rewrite parse_loop_cons.
    destruct (parse_step st r) as [st1|e] eqn:Hs; simpl; [|discriminate].
    apply IH; [|exact Hl]. exact (parse_step_store_ok _ _ _ Hh Hr Hs).
Qed.

Lemma parse_roles_value_ok (s : pystr) (rl : list (list pystr)) :
  parse s = Ok rl ->
  Forall (fun n => n <> [] /\ Forall (fun t => COMMA ∉ t) n) rl.
Proof.
  unfold parse. destruct (_parse_roles s) as [[h refs]|e] eqn:Hp; simpl;
    [|discriminate].
  intros [= <-]. apply parse_roles_loop in Hp as (st & Hl & <- & <-).
  pose proof (parse_loop_store_ok _ parse_init _ (Forall_nil_2 _)
                (split_fragments_no_sep s COMMA) Hl) as Hok.
  destruct (parse_loop_wf _ _ _ wf_init Hl) as [Hwf _].
  unfold roles_value. apply Forall_forall. intros n Hn.
  apply list_elem_of_In, in_map_iff in Hn as (id & <- & Hid).
  apply list_elem_of_In in Hid.
  pose proof (proj1 (Forall_forall _ _) Hwf id Hid) as Hlt. simpl in Hlt.
  destruct (lookup_lt_is_Some_2 _ _ Hlt) as [l Hl'].
  rewrite Hl'. simpl. exact (Forall_lookup_1 _ _ _ _ Hok Hl').
Qed.

(** X3. Every node of a role list the parser returns has at least one
    token. *)
Theorem parse_nodes_not_empty (s : pystr) (rl : list (list pystr)) :
  parse s = Ok rl -> Forall (fun n => n <> []) rl.
Proof.
  intros H%parse_roles_value_ok. eapply Forall_impl; [exact H|].
  simpl. intros n [Hn _]. exact Hn.
Qed.

Lemma parse_nodes_not_empty_witness :
  parse (str "[],[a,]") = Ok [[empty_str]; [str "a"; empty_str]] /\
  Forall (fun n : list pystr => n <> []) [[empty_str]; [str "a"; empty_str]].
Proof.
  split; [reflexivity|].
  exact (parse_nodes_not_empty (str "[],[a,]") _ eq_refl).
Defined.

(** X4. No token of a role list the parser returns contains a comma. *)
Theorem parse_tokens_no_comma (s : pystr) (rl : list (list pystr)) :
  parse s = Ok rl -> Forall (Forall (fun t => COMMA ∉ t)) rl.
Proof.
  intros H%parse_roles_value_ok. eapply Forall_impl; [exact H|].
  simpl. intros n [_ Hn]. exact Hn.
Qed.

Lemma parse_tokens_no_comma_witness :
  parse (str "[a ,b c]") = Ok [[str "a"; str "b c"]] /\
  Forall (Forall (fun t : pystr => COMMA ∉ t)) [[str "a"; str "b c"]].
Proof.
  split; [reflexivity|].
  exact (parse_tokens_no_comma (str "[a ,b c]") _ eq_refl).
Defined.

(** ** Tokens written after a closed group *)

Lemma parse_step_closing (st st' : parser_state) (r : pystr) :
  closes r = true -> parse_step st r = Ok st' ->
  exists id, _node st' = Some id /\ last (_roles st') = Some id.
Proof.
  unfold closes, parse_step, node_append, new_node, roles_append. intros ->.
  destruct (startswith _ _); simpl;
    try (destruct (_node st) as [id|]; simpl; [|discriminate]);
    intros [= <-]; simpl; eexists; (split; [reflexivity|]); apply last_snoc.
Qed.

(** X5. A fragment without bracket that follows the fragment closing a
    group is not an error and opens no node: its token is appended to
    the list object of the node just closed, which the role list already
    holds, so the node shows one more role. *)
Theorem parse_roles_token_after_group (s r f : pystr) (h : store)
    (refs : list nat) :
  _parse_roles s = Ok (h, refs) ->
  last (split s COMMA) = Some f -> closes f = true ->
  COMMA ∉ r -> opens r = false -> closes r = false ->
  exists id, last refs = Some id /\
    _parse_roles (s ++ COMMA :: r) = Ok (list_append id (strip r) h, refs).
Proof.
  intros (st & Hl & <- & <-)%parse_roles_loop Hlast Hf Hr Ho Hc.
  apply last_Some in Hlast as [l' Hl']. rewrite Hl', parse_loop_app in Hl.
  destruct (parse_loop parse_init l') as [st0|e] eqn:Hl0; simpl in Hl;
    [|discriminate].
  rewrite parse_loop_cons in Hl.
  destruct (parse_step st0 f) as [st1|e] eqn:Hs; simpl in Hl; [|discriminate].
  injection Hl as ->.
  destruct (parse_step_closing _ _ _ Hf Hs) as (id & Hn & Hlr).
  exists id. split; [exact Hlr|].
  unfold _parse_roles.
  rewrite parse_loop_strip, split_app_sep, (split_no_sep r COMMA Hr), Hl'.
  rewrite parse_loop_app, parse_loop_app, Hl0, bind_Ok, parse_loop_cons, Hs.
  rewrite bind_Ok, parse_loop_nil, bind_Ok, parse_loop_cons.
  unfold opens, closes in Ho, Hc.
  unfold parse_step. rewrite Ho, Hc. unfold node_append. rewrite Hn. reflexivity.
Qed.

Lemma parse_roles_token_after_group_witness :
  _parse_roles (str "[admin, mon], mgr")
  = Ok ([[str "admin"; str "mon"; str "mgr"]], [0]).
Proof.
  destruct (parse_roles_token_after_group (str "[admin, mon]") (str " mgr")
              (str " mon]") [[str "admin"; str "mon"]] [0]
              eq_refl eq_refl eq_refl) as (id & Hid & Hp).
  - rewrite list_elem_of_In. simpl. intros H.
    repeat (destruct H as [H|H]; [discriminate H|]). exact H.
  - reflexivity.
  - reflexivity.
  - injection Hid as <-. exact Hp.
Defined.

(** ** The keys of a derived configuration *)

Lemma set_if_truthy_is_Some {A} `{Truthy A} (k k' : string) (inj : A -> value)
    (x : option A) (d : gmap string value) :
  is_Some (set_if_truthy k' inj x d !! k) -> k = k' \/ is_Some (d !! k).
Proof.
  destruct (decide (k' = k)) as [->|Hne]; [auto|].
  rewrite lookup_set_if_truthy_ne by assumption. auto.
Qed.

Lemma set_if_not_None_is_Some {A} (k k' : string) (inj : A -> value)
    (x : option A) (d : gmap string value) :
  is_Some (set_if_not_None k' inj x d !! k) -> k = k' \/ is_Some (d !! k).
Proof.
  destruct (decide (k' = k)) as [->|Hne]; [auto|].
  rewrite lookup_set_if_not_None_ne by assumption. auto.
Qed.

Lemma num_disks_entry_is_Some (kw : kwargs) (k : string) (d : gmap string value) :
  is_Some (num_disks_entry kw d !! k) -> k = "num_disks"%string \/ is_Some (d !! k).
Proof.
  destruct (decide ("num_disks"%string = k)) as [<-|Hne]; [auto|].
  rewrite lookup_num_disks_entry_ne by assumption. auto.
Qed.

Lemma roles_entry_is_Some (kw : kwargs) (h : store) (d : gmap string value)
    (k : string) :
  roles_entry kw = Ok (h, d) -> is_Some (d !! k) -> k = "roles"%string.
Proof.
  intros Hd [v Hv]. destruct (decide ("roles"%string = k)) as [<-|Hne];
    [reflexivity|].
  rewrite (roles_entry_lookup_ne _ _ _ _ Hd Hne) in Hv. discriminate Hv.
Qed.

Lemma gen_settings_dict_key_in (version : option pystr) (kw : kwargs)
    (h : store) (d : gmap string value) (k : string) :
  _gen_settings_dict version kw = Ok (h, d) -> is_Some (d !! k) ->
  k ∈ settings_keys.
Proof.
  intros (d0 & Hd0 & ->)%gen_settings_dict_inv. unfold scalar_entries.
  cbv zeta. intros Hk. unfold settings_keys.
  repeat first
    [ apply set_if_truthy_is_Some in Hk as [->|Hk]; [set_solver|]
    | apply set_if_not_None_is_Some in Hk as [->|Hk]; [set_solver|]
    | apply num_disks_entry_is_Some in Hk as [->|Hk]; [set_solver|] ].
  rewrite (roles_entry_is_Some _ _ _ _ Hd0 Hk). set_solver.
Qed.

(** X6. A derived configuration has no key outside the sixteen that
    [_gen_settings_dict] names, and its [version] key holds the version
    tag whenever one is passed. *)
Theorem gen_settings_dict_keys (version : option pystr) (kw : kwargs)
    (h : store) (d : gmap string value) :
  _gen_settings_dict version kw = Ok (h, d) ->
  (forall k, is_Some (d !! k) -> k ∈ settings_keys) /\
  d !! "version" = VStr <$> version.
Proof.
  intros Hg. split.
  - intros k. apply (gen_settings_dict_key_in _ _ _ _ _ Hg).
  - apply gen_settings_dict_inv in Hg as (d0 & Hd0 & ->). unset_key Hd0.
Qed.

Lemma gen_settings_dict_keys_witness :
  exists d,
    _gen_settings_dict (Some (str "nautilus")) falsy_options = Ok ([], d) /\
    d !! "version" = Some (VStr (str "nautilus")) /\
    ~ is_Some (d !! "deployment_tool").
Proof.
  exists (scalar_entries (Some (str "nautilus")) falsy_options ∅).
  destruct (gen_settings_dict_keys (Some (str "nautilus")) falsy_options []
              (scalar_entries (Some (str "nautilus")) falsy_options ∅) eq_refl)
    as [Hk Hv].
  split; [reflexivity|]. split; [exact Hv|].
  intros Hs. apply Hk in Hs. unfold settings_keys in Hs.
  rewrite list_elem_of_In in Hs. simpl in Hs.
  repeat (destruct Hs as [Hs|Hs]; [discriminate Hs|]). exact Hs.
Defined.

(** X7. With single-node mode off the disk count is passed through under
    a truth test only: a count of zero (or none) gives no [num_disks]
    key, every other count, a negative one too, is emitted as given. *)
Theorem gen_settings_dict_disks_multi_node (version : option pystr)
    (kw : kwargs) (h : store) (d : gmap string value) :
  single_node kw = false ->
  _gen_settings_dict version kw = Ok (h, d) ->
  truthy_gated d "num_disks" VInt (num_disks kw).
Proof.
  intros Hs Hg. apply truthy_gated_intro.
  rewrite (gen_settings_dict_lookup_num_disks _ _ _ _ Hg), Hs.
  destruct (num_disks kw) as [n|]; [|reflexivity].
  change (truthy (Some n)) with (negb (n =? 0)%Z).
  destruct (n =? 0)%Z; reflexivity.
Qed.

Lemma gen_settings_dict_disks_multi_node_witness :
  exists d,
    _gen_settings_dict (Some (str "ses6")) (set_num_disks (-1) no_options)
      = Ok ([], d) /\ d !! "num_disks" = Some (VInt (-1)).
Proof.
  exists (scalar_entries (Some (str "ses6")) (set_num_disks (-1) no_options) ∅).
  split; [reflexivity|].
  apply (proj2 (gen_settings_dict_disks_multi_node (Some (str "ses6"))
           (set_num_disks (-1) no_options) []
           (scalar_entries (Some (str "ses6")) (set_num_disks (-1) no_options) ∅)
           eq_refl eq_refl) (-1)%Z); reflexivity.
Defined.

(** ** The version tag and the create commands *)

Lemma set_if_truthy_lookup_ext {A} `{Truthy A} (k k' : string) (inj : A -> value)
    (x : option A) (d1 d2 : gmap string value) :
  d1 !! k = d2 !! k ->
  set_if_truthy k' inj x d1 !! k = set_if_truthy k' inj x d2 !! k.
Proof.
  intros Hd. unfold set_if_truthy. destruct x as [a|]; [|exact Hd].
  destruct (truthy a); [|exact Hd].
  destruct (decide (k' = k)) as [->|Hne].
  - rewrite !lookup_insert_eq. reflexivity.
  - rewrite !lookup_insert_ne by assumption. exact Hd.
Qed.

Lemma scalar_entries_version_ext (v v' : option pystr) (kw : kwargs)
    (d : gmap string value) (k : string) :
  k <> "version"%string ->
  scalar_entries v' kw d !! k = scalar_entries v kw d !! k.
Proof.
  intros Hk. unfold scalar_entries. cbv zeta.
  do 2 apply set_if_truthy_lookup_ext.
  rewrite !lookup_set_if_not_None_ne by congruence. reflexivity.
Qed.

(** X8. The version tag only decides the [version] key: for two tags,
    the derivation raises the same exception or returns the same store
    and configurations that agree on every other key.  The five create
    commands therefore derive the same roles, disks and options from the
    same options. *)
Theorem gen_settings_dict_version_only (v v' : option pystr) (kw : kwargs) :
  match _gen_settings_dict v kw with
  | Ok (h, d) =>
      exists d', _gen_settings_dict v' kw = Ok (h, d') /\
        forall k, k <> "version"%string -> d' !! k = d !! k
  | Raise e => _gen_settings_dict v' kw = Raise e
  end.
Proof.
  rewrite !gen_settings_dict_stages.
  destruct (roles_entry kw) as [[h d0]|e]; simpl; [|reflexivity].
  eexists. split; [reflexivity|]. intros k Hk.
  apply scalar_entries_version_ext, Hk.
Qed.

Lemma gen_settings_dict_no_deployment_tool (version : option pystr)
    (kw : kwargs) (h : store) (d : gmap string value) :
  _gen_settings_dict version kw = Ok (h, d) -> d !! "deployment_tool" = None.
Proof.
  intros Hg. destruct (d !! "deployment_tool") as [v|] eqn:Hv; [|reflexivity].
  pose proof (gen_settings_dict_key_in _ _ _ _ "deployment_tool" Hg
                (ex_intro _ v Hv)) as Hin.
  unfold settings_keys in Hin. rewrite list_elem_of_In in Hin. simpl in Hin.
  exfalso. repeat (destruct Hin as [Hin|Hin]; [discriminate Hin|]). exact Hin.
Qed.

(** X9. [ses7] raises what the derivation for the tag [ses7] raises;
    otherwise it hands over the derived configuration with the key
    [deployment_tool] set to ["deepsea"] when [use_deepsea] is on, and
    without that key when it is off. *)
Theorem ses7_deployment_tool (use_deepsea : bool) (kw : kwargs) :
  match _gen_settings_dict (Some (str "ses7")) kw with
  | Ok (h, d) =>
      exists d', ses7 use_deepsea kw = Ok (h, d') /\
        d' !! "deployment_tool" =
          (if use_deepsea then Some (VStr (str "deepsea")) else None) /\
        forall k, k <> "deployment_tool"%string -> d' !! k = d !! k
  | Raise e => ses7 use_deepsea kw = Raise e
  end.
Proof.
  unfold ses7.
  destruct (_gen_settings_dict (Some (str "ses7")) kw) as [[h d]|e] eqn:Hg;
    simpl; [|reflexivity].
  eexists. split; [reflexivity|]. destruct use_deepsea.
  - split; [apply lookup_insert_eq|]. intros k Hk.
    apply lookup_insert_ne. congruence.
  - split; [|reflexivity].
    apply (gen_settings_dict_no_deployment_tool _ _ _ _ Hg).
Qed.

(** X10. [octopus] raises what the derivation for the tag [octopus]
    raises; otherwise it hands over the derived configuration with
    [deployment_tool] set to ["deepsea"], with [--use-deepsea] and with
    [--use-orchestrator] alike. *)
Theorem octopus_always_deepsea (use_deepsea : bool) (kw : kwargs) :
  match _gen_settings_dict (Some (str "octopus")) kw with
  | Ok (h, d) =>
      exists d', octopus use_deepsea kw = Ok (h, d') /\
        d' !! "deployment_tool" = Some (VStr (str "deepsea")) /\
        forall k, k <> "deployment_tool"%string -> d' !! k = d !! k
  | Raise e => octopus use_deepsea kw = Raise e
  end.
Proof.
  unfold octopus.
  destruct (_gen_settings_dict (Some (str "octopus")) kw) as [[h d]|e];
    simpl; [|reflexivity].
  eexists. split; [reflexivity|].
  split; [apply lookup_insert_eq|]. intros k Hk.
  apply lookup_insert_ne. congruence.
Qed.

Lemma gen_settings_dict_version_only_witness :
  exists d d',
    _gen_settings_dict (Some (str "ses6")) falsy_options = Ok ([], d) /\
    _gen_settings_dict (Some (str "nautilus")) falsy_options = Ok ([], d') /\
    d' !! "ram" = d !! "ram".
Proof.
  pose proof (gen_settings_dict_version_only (Some (str "ses6"))
                (Some (str "nautilus")) falsy_options) as H.
  change (_gen_settings_dict (Some (str "ses6")) falsy_options)
    with (Ok ([] : store, scalar_entries (Some (str "ses6")) falsy_options ∅))
    in H.
  cbv beta iota in H. destruct H as (d' & Hd' & Hk).
  exists (scalar_entries (Some (str "ses6")) falsy_options ∅), d'.
  split; [reflexivity|]. split; [exact Hd'|]. apply Hk. discriminate.
Defined.

Lemma ses7_deployment_tool_witness :
  (exists d, ses7 true no_options = Ok ([], d) /\
     d !! "deployment_tool" = Some (VStr (str "deepsea"))) /\
  (exists d, ses7 false no_options = Ok ([], d) /\
     d !! "deployment_tool" = None).
Proof.
  split.
  - pose proof (ses7_deployment_tool true no_options) as H.
    change (_gen_settings_dict (Some (str "ses7")) no_options)
      with (Ok ([] : store, scalar_entries (Some (str "ses7")) no_options ∅))
      in H.
    cbv beta iota in H. destruct H as (d' & Hd' & Ht & _). eauto.
  - pose proof (ses7_deployment_tool false no_options) as H.
    change (_gen_settings_dict (Some (str "ses7")) no_options)
      with (Ok ([] : store, scalar_entries (Some (str "ses7")) no_options ∅))
      in H.
    cbv beta iota in H. destruct H as (d' & Hd' & Ht & _). eauto.
Defined.

Lemma octopus_always_deepsea_witness :
  exists d, octopus false no_options = Ok ([], d) /\
    d !! "deployment_tool" = Some (VStr (str "deepsea")).
Proof.
  pose proof (octopus_always_deepsea false no_options) as H.
  change (_gen_settings_dict (Some (str "octopus")) no_options)
    with (Ok ([] : store, scalar_entries (Some (str "octopus")) no_options ∅))
    in H.
  cbv beta iota in H. destruct H as (d' & Hd' & Ht & _). eauto.
Defined.

(** ** When ses5 fails *)

Lemma parse_roles_raise (s : pystr) (e : exn) :
  _parse_roles s = Raise e -> e = AttributeError.
Proof.
  unfold _parse_roles.
  destruct (parse_loop parse_init _) as [st|e'] eqn:Hl; simpl; [discriminate|].
  intros [= <-]. apply (parse_loop_raise _ _ _ Hl).
Qed.

Lemma parse_roles_ok_opens (s f : pystr) (fs : list pystr) (h : store)
    (refs : list nat) :
  _parse_roles s = Ok (h, refs) -> split s COMMA = f :: fs -> opens f = true.
Proof.
  intros (st & Hl & _)%parse_roles_loop Hs. rewrite Hs in Hl.
  destruct (opens f) eqn:Ho; [reflexivity|].
  rewrite parse_loop_cons, (parse_step_no_node parse_init f eq_refl Ho) in Hl.
  discriminate Hl.
Qed.

Lemma count_closing_zero (l : list pystr) :
  count_closing l = 0 -> Forall (fun r => closes r = false) l.
Proof.
  unfold count_closing. induction l as [|r l IH]; simpl; [constructor|].
  destruct (closes r) eqn:Hc; simpl; [discriminate|].
  intros H. constructor; [exact Hc|apply IH, H].
Qed.

Lemma roles_entry_empty_list (kw : kwargs) (h : store) (d : gmap string value) :
  roles_entry kw = Ok (h, d) -> d !! "roles" = Some (VRoles []) ->
  single_node kw = false /\
  exists r, roles kw = Some r /\ _parse_roles r = Ok (h, []).
Proof.
  unfold roles_entry. destruct (single_node kw); simpl.
  - intros [= <- <-]. rewrite lookup_insert_eq. discriminate.
  - destruct (roles kw) as [r|]; simpl.
    + change (truthy (Some r)) with (truthy r). destruct (truthy r).
      * destruct (_parse_roles r) as [[h0 refs]|e] eqn:Hp; simpl; [|discriminate].
        intros [= <- <-]. rewrite lookup_insert_eq. intros [= ->]. eauto.
      * intros [= <- <-]. rewrite lookup_empty. discriminate.
    + intros [= <- <-]. rewrite lookup_empty. discriminate.
Qed.

(** X11. [ses5] raises [IndexError] exactly when single-node mode is
    off and the roles text has a first fragment that opens a group and no
    fragment that closes one: the parser then returns the empty list and
    [ses5] takes its first node. *)
Theorem ses5_index_error_iff (kw : kwargs) :
  ses5 kw = Raise IndexError <->
  single_node kw = false /\
  exists r f fs, roles kw = Some r /\ split r COMMA = f :: fs /\
    opens f = true /\ Forall (fun x => closes x = false) (f :: fs).
Proof.
  split.
  - unfold ses5.
    destruct (_gen_settings_dict (Some (str "ses5")) kw) as [[h d]|e] eqn:Hg;
      simpl.
    + destruct (d !! "roles") as [[| | | |[|id refs]]|] eqn:Hr; try discriminate.
      intros _. apply gen_settings_dict_inv in Hg as (d0 & Hd0 & ->).
      rewrite scalar_entries_lookup_roles in Hr.
      destruct (roles_entry_empty_list _ _ _ Hd0 Hr) as (Hs & r & Hrk & Hp).
      split; [exact Hs|].
      pose proof (split_nonempty r COMMA) as Hne.
      destruct (split r COMMA) as [|f fs] eqn:Hsp; [contradiction|].
      exists r, f, fs. repeat split; try assumption.
      * exact (parse_roles_ok_opens _ _ _ _ _ Hp Hsp).
      * apply count_closing_zero.
        apply parse_roles_loop in Hp as (st & Hl & _ & Hrs).
        rewrite Hsp in Hl.
        pose proof (parse_loop_roles_length _ _ _ Hl) as Hlen.
        rewrite Hrs in Hlen. simpl in Hlen. lia.
    + intros [= ->].
      apply gen_settings_dict_raise in Hg as (_ & _ & Hp%parse_roles_raise).
      discriminate Hp.
  - intros (Hs & r & f & fs & Hr & Hsp & Ho & Hc).
    destruct (parse_roles_drops_open_group r [] fs f parse_init Hsp Ho Hc eq_refl)
      as (ext & Hp & _).
    pose proof (roles_entry_parsed kw r Hs Hr
                  (split_opening_not_empty r [] fs f Hsp Ho)) as He.
    rewrite Hp in He. simpl in He.
    destruct (gen_settings_dict_lookup_roles (Some (str "ses5")) kw _ _ He)
      as (d & Hd & Hl).
    assert (Hroles : d !! "roles" = Some (VRoles []))
      by (rewrite Hl; apply lookup_insert_eq).
    unfold ses5. rewrite Hd. simpl. rewrite Hroles. reflexivity.
Qed.

Lemma ses5_index_error_iff_witness :
  ses5 (set_roles (str "[admin, [mon, mgr") no_options) = Raise IndexError /\
  ses5 (set_roles (str "[admin], [mon") no_options) <> Raise IndexError.
Proof.
  split.
  - apply (proj2 (ses5_index_error_iff
                    (set_roles (str "[admin, [mon, mgr") no_options))).
    split; [reflexivity|].
    exists (str "[admin, [mon, mgr"), (str "[admin"), [str " [mon"; str " mgr"].
    repeat split. repeat constructor.
  - intros H.
    apply (proj1 (ses5_index_error_iff
                    (set_roles (str "[admin], [mon") no_options))) in H.
    destruct H as (_ & r & f & fs & Hr & Hsp & _ & Hc).
    injection Hr as <-. injection Hsp as <- <-.
    apply Forall_cons in Hc as [Hc _]. discriminate Hc.
Defined.

(** ** ses5 and the role list *)

Lemma plain_nodes (rl : list (list pystr)) :
  Forall (fun n => n <> [] /\
            Forall (fun t => token_ok t = true /\ strip t = t) n) rl ->
  Forall (fun n => n <> [] /\ Forall plain n) rl.
Proof.
  intros Hrl. eapply Forall_impl; [exact Hrl|]. simpl. intros n [Hn Hts].
  split; [exact Hn|]. eapply Forall_impl; [exact Hts|]. simpl. intros t [Ht Hs].
  apply (token_ok_plain t Ht Hs).
Qed.

Lemma parse_roles_render (n : list pystr) (rl : list (list pystr)) :
  Forall (fun m => m <> [] /\ Forall plain m) (n :: rl) ->
  _parse_roles (render (n :: rl)) = Ok (n :: rl, seq 0 (S (length rl))).
Proof.
  intros Hp. unfold _parse_roles. rewrite parse_loop_strip, split_render.
  - destruct (parse_loop_nodes (n :: rl) parse_init Hp) as [nd ->].
    reflexivity.
  - eapply Forall_impl; [exact Hp|]. simpl. intros m [_ Hm]. exact Hm.
Qed.

Lemma render_not_empty (n : list pystr) (rl : list (list pystr)) :
  render (n :: rl) <> [].
Proof.
  unfold render. simpl. destruct (map render_node rl); discriminate.
Qed.

(** X12. With single-node mode off and a roles text that is the
    rendering of a role list (nodes and tokens not empty, tokens without
    bracket, comma or white space at either end), [ses5] hands over that
    role list with ["openattic"] appended to its first node and every
    other node as written. *)
Theorem ses5_rendered_roles (kw : kwargs) (n : list pystr)
    (rl : list (list pystr)) :
  single_node kw = false ->
  roles kw = Some (render (n :: rl)) ->
  Forall (fun m => m <> [] /\
            Forall (fun t => token_ok t = true /\ strip t = t) m) (n :: rl) ->
  exists h d refs,
    ses5 kw = Ok (h, d) /\ d !! "roles" = Some (VRoles refs) /\
    roles_value h refs = (n ++ [str "openattic"]) :: rl.
Proof.
  intros Hs Hr Hrl%plain_nodes.
  pose proof (roles_entry_parsed kw _ Hs Hr (render_not_empty n rl)) as He.
  rewrite (parse_roles_render n rl Hrl) in He. simpl in He.
  destruct (gen_settings_dict_lookup_roles (Some (str "ses5")) kw _ _ He)
    as (d & Hd & Hl).
  assert (Hroles : d !! "roles" = Some (VRoles (0 :: seq 1 (length rl))))
    by (rewrite Hl; apply lookup_insert_eq).
  exists ((n ++ [str "openattic"]) :: rl), d, (seq 0 (S (length rl))).
  split; [|split].
  - unfold ses5. rewrite Hd. simpl. rewrite Hroles. reflexivity.
  - exact Hroles.
  - apply (roles_value_seq ((n ++ [str "openattic"]) :: rl)).
Qed.

Lemma ses5_rendered_roles_witness :
  exists h d refs,
    ses5 (set_roles (str "[admin, mon],[storage]") no_options) = Ok (h, d) /\
    d !! "roles" = Some (VRoles refs) /\
    roles_value h refs
    = [[str "admin"; str "mon"; str "openattic"]; [str "storage"]].
Proof.
  apply (ses5_rendered_roles (set_roles (str "[admin, mon],[storage]") no_options)
           [str "admin"; str "mon"] [[str "storage"]] eq_refl eq_refl).
  repeat constructor; discriminate.
Defined.

(** X13. When the roles list is not empty, the role list [ses5] hands
    over shows ["openattic"] at the end of every node that is the same
    list object as the first node, and the other nodes unchanged. *)
Theorem ses5_shared_first_node (kw : kwargs) (h : store)
    (d : gmap string value) (id : nat) (refs : list nat) :
  _gen_settings_dict (Some (str "ses5")) kw = Ok (h, d) ->
  d !! "roles" = Some (VRoles (id :: refs)) ->
  exists h',
    ses5 kw = Ok (h', d) /\
    roles_value h' (id :: refs) =
    map (fun j => if decide (j = id)
                  then default [] (h !! j) ++ [str "openattic"]
                  else default [] (h !! j)) (id :: refs).
Proof.
  intros Hg Hr. exists (list_append id (str "openattic") h). split.
  - unfold ses5. rewrite Hg. simpl. rewrite Hr. reflexivity.
  - destruct (gen_settings_dict_roles_wf _ _ _ _ Hg) as [Hn|(refs' & Hr' & Hwf)];
      [congruence|].
    assert (refs' = id :: refs) as -> by congruence.
    apply Forall_cons in Hwf as [Hid _].
    destruct (lookup_lt_is_Some_2 h id Hid) as [l Hl].
    unfold roles_value, list_append. apply map_ext. intros j.
    destruct (decide (j = id)) as [->|Hne].
    + rewrite list_lookup_alter_eq, Hl. reflexivity.
    + rewrite list_lookup_alter_ne by congruence. reflexivity.
Qed.

Lemma ses5_shared_first_node_witness :
  exists h' d,
    ses5 (set_roles (str "[a],b],[c]") no_options) = Ok (h', d) /\
    roles_value h' [0; 0; 1]
    = [[str "a"; str "b"; str "openattic"];
       [str "a"; str "b"; str "openattic"]; [str "c"]].
Proof.
  destruct (ses5_shared_first_node (set_roles (str "[a],b],[c]") no_options)
              [[str "a"; str "b"]; [str "c"]]
              (scalar_entries (Some (str "ses5"))
                 (set_roles (str "[a],b],[c]") no_options)
                 {["roles" := VRoles [0; 0; 1]]}) 0 [0; 1] eq_refl)
    as (h' & Hs & Hv).
  - rewrite scalar_entries_lookup_roles. apply lookup_insert_eq.
  - eexists h', _. split; [exact Hs|]. rewrite Hv. reflexivity.
Defined.

(** ** More on the cluster status *)

Lemma getitem_not_elem_of {V} (d : list (pystr * V)) (k : pystr) :
  k ∉ map fst d -> getitem d k = Raise KeyError.
Proof.
  induction d as [|[k' v'] d IH]; simpl; intros Hk; [reflexivity|].
  apply not_elem_of_cons in Hk as [Hne Hk].
  destruct (streq_spec k' k) as [->|_]; [contradiction|]. apply IH, Hk.
Qed.

(** X14. [_status] raises [KeyError] exactly when the mapping has no
    node named admin; it raises nothing else, and returns a status
    whenever the admin node is there. *)
Theorem status_key_error_iff (nodes : list (pystr * pystr)) :
  (_status nodes = Raise KeyError <-> str "admin" ∉ map fst nodes) /\
  (forall e, _status nodes = Raise e -> e = KeyError) /\
  (str "admin" ∈ map fst nodes -> exists s, _status nodes = Ok s).
Proof.
  unfold _status.
  destruct (decide (str "admin" ∈ map fst nodes)) as [Hin|Hnin].
  - destruct (getitem_elem_of nodes _ Hin) as [s0 ->]. simpl.
    split; [split; [discriminate|contradiction]|].
    split; [discriminate|eauto].
  - rewrite (getitem_not_elem_of nodes _ Hnin). simpl.
    split; [split; auto|]. split; [congruence|contradiction].
Qed.

Lemma status_key_error_iff_witness :
  _status [(str "node1", str "running")] = Raise KeyError /\
  exists s, _status [(str "node1", str "running"); (str "admin", str "stopped")]
            = Ok s.
Proof.
  split.
  - apply (proj1 (status_key_error_iff [(str "node1", str "running")])).
    rewrite list_elem_of_In. simpl. intros [H|H]; [discriminate H|exact H].
  - apply (proj2 (proj2 (status_key_error_iff
             [(str "node1", str "running"); (str "admin", str "stopped")]))).
    right. left.
Defined.

Lemma fold_status_table (sts : list pystr) (a : pystr) :
  fold_left status_step sts a = status_table a sts.
Proof.
  revert a. induction sts as [|x sts IH]; intros a.
  - unfold status_table, has_status. simpl. streq_cases; reflexivity.
  - simpl. rewrite IH. unfold status_step, status_table, has_status. simpl.
    streq_cases;
      repeat match goal with
        | |- context [existsb ?f ?l] => destruct (existsb f l); simpl
        end; try reflexivity; congruence.
Qed.

(** X15. The status [_status] returns is decided by the status of the
    admin node and by which statuses occur among the nodes: from "not
    deployed" a running node gives "partially deployed"; from "running" a
    stopped or suspended node gives "partially running"; from "stopped"
    or "suspended" a running node gives "partially running"; in every
    other case it is the status of the admin node. *)
Theorem status_by_table (nodes : list (pystr * pystr)) (a : pystr) :
  getitem nodes (str "admin") = Ok a ->
  _status nodes = Ok (status_table a (map snd nodes)).
Proof.
  intros Ha. unfold _status. rewrite Ha. simpl. f_equal.
  apply fold_status_table.
Qed.

Lemma status_by_table_witness :
  _status [(str "admin", str "stopped"); (str "node1", str "suspended")]
    = Ok (str "stopped") /\
  _status [(str "node1", str "stopped"); (str "admin", str "not deployed");
           (str "node2", str "running")] = Ok (str "partially deployed").
Proof.
  split.
  - exact (status_by_table
             [(str "admin", str "stopped"); (str "node1", str "suspended")]
             (str "stopped") eq_refl).
  - exact (status_by_table
             [(str "node1", str "stopped"); (str "admin", str "not deployed");
              (str "node2", str "running")] (str "not deployed") eq_refl).
Defined.

Lemma status_step_same (s : pystr) : status_step s s = s.
Proof. unfold status_step. streq_cases; try reflexivity; congruence. Qed.

(** X16. When every node, the admin node among them, has the same
    status, that status is the cluster status, whatever string it is. *)
Theorem status_all_agree (nodes : list (pystr * pystr)) (s : pystr) :
  str "admin" ∈ map fst nodes ->
  Forall (fun n => snd n = s) nodes ->
  _status nodes = Ok s.
Proof.
  intros Hin Hall. unfold _status.
  destruct (getitem_elem_of nodes _ Hin) as [s0 Hs0]. rewrite Hs0. simpl.
  assert (s0 = s) as ->.
  { clear Hin. induction nodes as [|[k v] nodes IH]; simpl in Hs0;
      [discriminate|].
    apply Forall_cons in Hall as [Hv Hall]. simpl in Hv.
    destruct (streq k (str "admin")); [congruence|]. apply IH; assumption. }
  f_equal. clear Hin Hs0. induction nodes as [|[k v] nodes IH]; [reflexivity|].
  apply Forall_cons in Hall as [Hv Hall]. simpl in Hv. subst v. simpl.
  rewrite status_step_same. apply IH, Hall.
Qed.

Lemma status_all_agree_witness :
  _status [(str "node1", str "suspended"); (str "admin", str "suspended")]
  = Ok (str "suspended").
Proof.
  apply (status_all_agree
           [(str "node1", str "suspended"); (str "admin", str "suspended")]).
  - right. left.
  - repeat constructor.
Defined.

(** ** Composing decorators *)

(** X17. [_decorator_composer] applies the decorators in the order of
    the list: composing over a concatenation is composing over the
    second list what was composed over the first, so the last decorator
    of the list is the outermost. *)
Theorem decorator_composer_app {A} (l1 l2 : list (A -> A)) (func : A) :
  _decorator_composer (l1 ++ l2) func
    = _decorator_composer l2 (_decorator_composer l1 func) /\
  forall d, _decorator_composer (l1 ++ [d]) func = d (_decorator_composer l1 func).
Proof.
  assert (Happ : forall l2' f, _decorator_composer (l1 ++ l2') f
                    = _decorator_composer l2' (_decorator_composer l1 f)).
  { induction l1 as [|d l1 IH]; intros l2' f; simpl; [reflexivity|apply IH]. }
  split; [apply Happ|]. intros d. rewrite Happ. reflexivity.
Qed.

(** ** What _create_command does *)

Lemma existsb_elem_of (p : event -> bool) (l : list event) :
  existsb p l = true <-> exists e, e ∈ l /\ p e = true.
Proof.
  rewrite existsb_exists. split; intros (e & He & Hp); exists e;
    (split; [apply list_elem_of_In, He|exact Hp]).
Qed.

Lemma create_command_kinds (a : answers) (deployment_id : pystr)
    (deploy : bool) (h : store) (d : gmap string value) :
  let events := _create_command a deployment_id deploy h d in
  existsb is_start events = deploy && confirmed a /\
  existsb is_destroy events = deploy && negb (confirmed a) /\
  existsb is_confirm events = deploy /\
  existsb is_create (drop 2 events) = false.
Proof.
  unfold _create_command.
  destruct deploy, (confirmed a), (streq (dep_version a) (str "ses5"));
    repeat split; reflexivity.
Qed.

(** X18. When its external calls return, [_create_command] creates the
    deployment first and once, asks for confirmation exactly when
    [deploy] is on, starts the deployment exactly when [deploy] is on and
    the operator confirms, and destroys it exactly when [deploy] is on
    and the operator declines. *)
Theorem create_command_start_destroy (a : answers) (deployment_id : pystr)
    (deploy : bool) (h : store) (d : gmap string value) :
  let events := _create_command a deployment_id deploy h d in
  (DepStart ∈ events <-> deploy = true /\ confirmed a = true) /\
  (DepDestroy ∈ events <-> deploy = true /\ confirmed a = false) /\
  ((exists text default, Confirm text default ∈ events) <-> deploy = true) /\
  (exists rest,
     events = SettingsNew h d :: DeploymentCreate deployment_id :: rest /\
     forall id, DeploymentCreate id ∉ rest).
Proof.
  cbv zeta.
  destruct (create_command_kinds a deployment_id deploy h d)
    as (Hs & Hd & Hc & Hcr).
  split; [|split; [|split]].
  - rewrite <- andb_true_iff, <- Hs, existsb_elem_of. split.
    + intros H. exists DepStart. auto.
    + intros ([] & He & Hp); simpl in Hp; try discriminate Hp. exact He.
  - rewrite <- (negb_true_iff (confirmed a)), <- andb_true_iff, <- Hd,
      existsb_elem_of. split.
    + intros H. exists DepDestroy. auto.
    + intros ([] & He & Hp); simpl in Hp; try discriminate Hp. exact He.
  - split.
    + intros (t & b & H). rewrite <- Hc. apply existsb_elem_of.
      exists (Confirm t b). auto.
    + intros Hdep. rewrite <- Hc in Hdep.
      apply existsb_elem_of in Hdep as ([] & He & Hp); simpl in Hp;
        try discriminate Hp. eauto.
  - exists (drop 2 (_create_command a deployment_id deploy h d)).
    split; [reflexivity|]. intros id Hin.
    assert (Ht : existsb is_create
                   (drop 2 (_create_command a deployment_id deploy h d)) = true)
      by (apply existsb_elem_of; exists (DeploymentCreate id); auto).
    rewrite Hcr in Ht. discriminate Ht.
Qed.

(** ** The table of the list command *)

Lemma format_left_length (width : nat) (s : pystr) :
  length (format_left width s) = Nat.max width (length s).
Proof. unfold format_left. rewrite length_app, length_replicate. lia. Qed.

Lemma format_center_length (width : nat) (s : pystr) :
  length (format_center width s) = Nat.max width (length s).
Proof.
  unfold format_center. cbv zeta. rewrite !length_app, !length_replicate.
  pose proof (Nat.div_mod_eq (width - length s) 2).
  pose proof (Nat.mod_upper_bound (width - length s) 2). lia.
Qed.

(** X19. The header and the rule of the table are 96 characters wide.
    A row is 10 characters wider than its three columns, each of which is
    as wide as its text and at least 11, 15 and 60 characters wide: the
    row is 96 characters wide exactly when the deployment id, the status
    and the node names fit their columns, and wider otherwise, as it is
    for the statuses "partially deployed" and "partially running". *)
Theorem list_row_width (dep_id st vms : pystr) :
  length list_header = 96 /\ length list_rule = 96 /\
  length (list_row dep_id st vms)
    = 10 + Nat.max 11 (length dep_id) + Nat.max 15 (length st)
      + Nat.max 60 (length vms) /\
  (length (list_row dep_id st vms) = 96 <->
   length dep_id <= 11 /\ length st <= 15 /\ length vms <= 60) /\
  (st = str "partially deployed" \/ st = str "partially running" ->
   96 < length (list_row dep_id st vms)).
Proof.
  assert (Hrow : length (list_row dep_id st vms)
                 = 10 + Nat.max 11 (length dep_id) + Nat.max 15 (length st)
                   + Nat.max 60 (length vms)).
  { unfold list_row. rewrite !length_app, !format_left_length.
    change (length (str "| ")) with 2. change (length (str " | ")) with 3.
    change (length (str " |")) with 2. lia. }
  split; [reflexivity|]. split; [reflexivity|]. split; [exact Hrow|].
  rewrite Hrow. split; [lia|].
  intros [->| ->].
  - change (length (str "partially deployed")) with 18. lia.
  - change (length (str "partially running")) with 17. lia.
Qed.

Lemma list_row_width_witness :
  96 < length (list_row (str "dep1") (str "partially running") (str "admin")).
Proof.
  apply (proj2 (proj2 (proj2 (proj2
           (list_row_width (str "dep1") (str "partially running") (str "admin")))))).
  right. reflexivity.
Defined.

Lemma list_rows_cons_ok (dep : deployment) (deps : list deployment) :
  has_admin dep ->
  list_rows (dep :: deps)
  = (dep_row dep :: fst (list_rows deps), snd (list_rows deps)).
Proof.
  unfold has_admin. intros [a Ha]%getitem_elem_of.
  simpl. unfold dep_row, _status. rewrite Ha. simpl.
  rewrite fold_status_table. destruct (list_rows deps). reflexivity.
Qed.

Lemma list_rows_all (deps : list deployment) :
  Forall has_admin deps -> list_rows deps = (map dep_row deps, None).
Proof.
  induction deps as [|dep deps IH]; intros Hall; [reflexivity|].
  apply Forall_cons in Hall as [Hd Hall].
  rewrite (list_rows_cons_ok dep deps Hd), (IH Hall). reflexivity.
Qed.

Lemma list_rows_stop (pre post : list deployment) (dep : deployment) :
  Forall has_admin pre -> ~ has_admin dep ->
  list_rows (pre ++ dep :: post) = (map dep_row pre, Some KeyError).
Proof.
  intros Hpre Hdep. induction pre as [|p pre IH]; simpl app.
  - simpl. unfold _status.
    rewrite (getitem_not_elem_of (nodes dep) _ Hdep). reflexivity.
  - apply Forall_cons in Hpre as [Hp Hpre].
    rewrite (list_rows_cons_ok p _ Hp), (IH Hpre). reflexivity.
Qed.

(** X20. The [list] command echoes the header and the rule, then one
    row for each deployment in the order given, then an empty line, when
    every deployment has an admin node.  At the first deployment without
    one it raises [KeyError]: the rows of the deployments before it have
    been echoed, no row follows and no empty line. *)
Theorem cli_list_output (deps : list deployment) :
  (Forall has_admin deps ->
   cli_list deps
   = (list_header :: list_rule :: map dep_row deps ++ [empty_str], None)) /\
  (forall pre dep post, deps = pre ++ dep :: post ->
   Forall has_admin pre -> ~ has_admin dep ->
   cli_list deps
   = (list_header :: list_rule :: map dep_row pre, Some KeyError)).
Proof.
  unfold cli_list. split.
  - intros Hall. rewrite (list_rows_all deps Hall). reflexivity.
  - intros pre dep post -> Hpre Hdep.
    rewrite (list_rows_stop pre post dep Hpre Hdep). reflexivity.
Qed.

Lemma cli_list_output_witness :
  cli_list [Deployment (str "one") [(str "admin", str "running")];
            Deployment (str "two") [(str "node1", str "running")];
            Deployment (str "three") [(str "admin", str "stopped")]]
  = ([list_header; list_rule;
      list_row (str "one") (str "running") (str "admin")], Some KeyError) /\
  cli_list [] = ([list_header; list_rule; empty_str], None).
Proof.
  split.
  - apply (proj2 (cli_list_output _)
             [Deployment (str "one") [(str "admin", str "running")]]
             (Deployment (str "two") [(str "node1", str "running")])
             [Deployment (str "three") [(str "admin", str "stopped")]]
             eq_refl).
    + repeat constructor.
    + unfold has_admin. rewrite list_elem_of_In. simpl.
      intros [H|H]; [discriminate H|exact H].
  - apply (proj1 (cli_list_output [])). constructor.
Defined.

(** ** A closing bracket without an opening one *)

(** X21. A fragment that ends with a closing bracket without starting
    with an opening one, right after the fragment that closed a group,
    is not an error either: its token joins the node just closed, and
    that same list object is put into the role list a second time. *)
Theorem parse_roles_second_closing (s r f : pystr) (h : store)
    (refs : list nat) :
  _parse_roles s = Ok (h, refs) ->
  last (split s COMMA) = Some f -> closes f = true ->
  COMMA ∉ r -> opens r = false -> closes r = true ->
  exists id, last refs = Some id /\
    _parse_roles (s ++ COMMA :: r)
    = Ok (list_append id (drop_last (strip r)) h, refs ++ [id]).
Proof.
  intros (st & Hl & <- & <-)%parse_roles_loop Hlast Hf Hr Ho Hc.
  apply last_Some in Hlast as [l' Hl']. rewrite Hl', parse_loop_app in Hl.
  destruct (parse_loop parse_init l') as [st0|e] eqn:Hl0; simpl in Hl;
    [|discriminate].
  rewrite parse_loop_cons in Hl.
  destruct (parse_step st0 f) as [st1|e] eqn:Hs; simpl in Hl; [|discriminate].
  injection Hl as ->.
  destruct (parse_step_closing _ _ _ Hf Hs) as (id & Hn & Hlr).
  exists id. split; [exact Hlr|].
  unfold _parse_roles.
  rewrite parse_loop_strip, split_app_sep, (split_no_sep r COMMA Hr), Hl'.
  rewrite parse_loop_app, parse_loop_app, Hl0, bind_Ok, parse_loop_cons, Hs.
  rewrite bind_Ok, parse_loop_nil, bind_Ok, parse_loop_cons.
  unfold opens, closes in Ho, Hc.
  unfold parse_step. rewrite Ho, Hc. unfold node_append. rewrite Hn. reflexivity.
Qed.

Lemma parse_roles_second_closing_witness :
  parse (str "[admin, mon], mgr]")
  = Ok [[str "admin"; str "mon"; str "mgr"];
        [str "admin"; str "mon"; str "mgr"]].
Proof.
  destruct (parse_roles_second_closing (str "[admin, mon]") (str " mgr]")
              (str " mon]") [[str "admin"; str "mon"]] [0]
              eq_refl eq_refl eq_refl) as (id & Hid & Hp).
  - rewrite list_elem_of_In. simpl. intros H.
    repeat (destruct H as [H|H]; [discriminate H|]). exact H.
  - reflexivity.
  - reflexivity.
  - injection Hid as <-. unfold parse.
    change (_parse_roles (str "[admin, mon], mgr]"))
      with (_parse_roles (str "[admin, mon]" ++ COMMA :: str " mgr]")).
    rewrite Hp. reflexivity.
Defined.
